(** * Transport lifecycle, idle monitor and fetch-based request executor

    A shallow embedding of [common/lib/transport/transport.ts] (the abstract
    [Transport] class) and of the fetch-based request function
    [fetchRequest], with the properties of the transport-layer specification
    stated and proved over it.

    Conventions of the embedding.
    - JavaScript numbers that the code handles here (durations, timestamps,
      serials, HTTP statuses) are integers: [Z].  A value that may be
      [undefined]/[null] is an [option].
    - Calls to collaborators that are not part of the class (the event
      emitter's [emit]/[off], the abstract [send], the connection manager's
      [onChannelMessage], [auth.authorize], [setTimeout]/[clearTimeout]) are
      recorded, in program order, in an effect trace.
    - [Logger] calls have no influence on control flow or state and are not
      recorded.
    - A [throw] stops the method; what was assigned before it stays
      assigned. *)

From stdpp Require Import base option list gmap strings pretty.
From Stdlib Require Import ZArith Lia Ascii String.

Local Open Scope Z_scope.

(** ** Values shared by both components *)

(** [new ErrorInfo(message, code, statusCode)]. *)
Record ErrorInfo := mkErrorInfo {
  ei_message : string;
  ei_code : option Z;
  ei_statusCode : option Z
}.

(** The [Error | ErrorInfo] union of the source: a classified [ErrorInfo] or
    a plain JavaScript error (name and message). *)
Inductive ErrorVal :=
| EInfo (e : ErrorInfo)
| EPlain (name message : string).

(** JavaScript truthiness of [number | null | undefined]. *)
Definition truthyZ (o : option Z) : bool :=
  match o with
  | Some z => negb (z =? 0)
  | None => false
  end.

(** JavaScript truthiness of [string | null | undefined]. *)
Definition truthyS (o : option string) : bool :=
  match o with
  | Some s => negb (String.eqb s "")
  | None => false
  end.

(** [a || b] on values that are an object or [undefined]. *)
Definition orElse {A} (a b : option A) : option A :=
  match a with
  | Some _ => a
  | None => b
  end.

Module Transport.

(** *** Protocol messages *)

(** The members of [ProtocolMessage.Action] that [transport.ts] names; every
    other action is [OtherAction] with its wire code. *)
Inductive Action :=
| HEARTBEAT | ACK | NACK | CONNECTED | DISCONNECT | DISCONNECTED
| CLOSE | CLOSED | ERROR | SYNC | AUTH
| OtherAction (code : Z).

Record ConnectionDetails := mkConnectionDetails {
  cd_maxIdleInterval : option Z
}.

Record ProtocolMessage := mkProtocolMessage {
  action : Action;
  id : option string;
  channel : option string;
  connectionId : option string;
  msgSerial : option Z;
  count : option Z;
  error : option ErrorVal;
  connectionDetails : option ConnectionDetails
}.

(** [ProtocolMessage.fromValues({ action: a })]. *)
Definition fromAction (a : Action) : ProtocolMessage :=
  mkProtocolMessage a None None None None None None None.

Definition closeMessage : ProtocolMessage := fromAction CLOSE.
Definition disconnectMessage : ProtocolMessage := fromAction DISCONNECT.

(** *** The connection-error table

    [ConnectionErrors] is imported from [./connectionerrors]; the transport
    only reads its [closed], [disconnected] and [failed] entries and passes
    them on as the error argument of [finish].  The entries are taken as
    given. *)
Record ConnectionErrorsT := mkConnectionErrors {
  ce_closed : option ErrorVal;
  ce_disconnected : option ErrorVal;
  ce_failed : option ErrorVal
}.

(** *** Effects *)

Definition handle := positive.

(** Arguments of an emitted event. *)
Inductive payload :=
| PErr (e : option ErrorVal)
| PStr (s : option string)
| PNum (n : option Z)
| PDetails (d : option ConnectionDetails)
| PMsg (m : ProtocolMessage).

Inductive effect :=
| Emit (event : string) (args : list payload)
| Off
| Send (m : ProtocolMessage)
| OnChannelMessage (m : ProtocolMessage)
| Authorize
| SetTimeout (h : handle) (delay : Z)
| ClearTimeout (h : option handle).

(** *** State *)

(** The mutable fields of a [Transport], the one field of the connection
    manager it writes ([connectionManager.lastActivity]), the configured
    [timeouts.realtimeRequestTimeout], the timers of this transport that are
    pending in the host, the reading of [Utils.now()], and the effects so
    far (oldest first). *)
Record World := mkWorld {
  isConnected : bool;
  isFinished : bool;
  isDisposed : bool;
  maxIdleInterval : option Z;
  idleTimer : option handle;
  lastActivity : option Z;
  cmLastActivity : option Z;
  realtimeRequestTimeout : Z;
  timers : gmap handle Z;
  nextHandle : handle;
  now : Z;
  trace : list effect
}.

(** The state the constructor leaves. *)
Definition init (rrt : Z) (clock : Z) : World :=
  {| isConnected := false; isFinished := false; isDisposed := false;
     maxIdleInterval := None; idleTimer := None; lastActivity := None;
     cmLastActivity := None; realtimeRequestTimeout := rrt;
     timers := ∅; nextHandle := 1%positive; now := clock; trace := [] |}.

(** Field updates. *)
Definition set_isConnected (b : bool) (w : World) : World :=
  mkWorld b (isFinished w) (isDisposed w) (maxIdleInterval w) (idleTimer w)
    (lastActivity w) (cmLastActivity w) (realtimeRequestTimeout w)
    (timers w) (nextHandle w) (now w) (trace w).
Definition set_isFinished (b : bool) (w : World) : World :=
  mkWorld (isConnected w) b (isDisposed w) (maxIdleInterval w) (idleTimer w)
    (lastActivity w) (cmLastActivity w) (realtimeRequestTimeout w)
    (timers w) (nextHandle w) (now w) (trace w).
Definition set_isDisposed (b : bool) (w : World) : World :=
  mkWorld (isConnected w) (isFinished w) b (maxIdleInterval w) (idleTimer w)
    (lastActivity w) (cmLastActivity w) (realtimeRequestTimeout w)
    (timers w) (nextHandle w) (now w) (trace w).
Definition set_maxIdleInterval (m : option Z) (w : World) : World :=
  mkWorld (isConnected w) (isFinished w) (isDisposed w) m (idleTimer w)
    (lastActivity w) (cmLastActivity w) (realtimeRequestTimeout w)
    (timers w) (nextHandle w) (now w) (trace w).
Definition set_idleTimer (h : option handle) (w : World) : World :=
  mkWorld (isConnected w) (isFinished w) (isDisposed w) (maxIdleInterval w) h
    (lastActivity w) (cmLastActivity w) (realtimeRequestTimeout w)
    (timers w) (nextHandle w) (now w) (trace w).
Definition set_lastActivity (t : option Z) (w : World) : World :=
  mkWorld (isConnected w) (isFinished w) (isDisposed w) (maxIdleInterval w)
    (idleTimer w) t t (realtimeRequestTimeout w)
    (timers w) (nextHandle w) (now w) (trace w).
Definition set_now (t : Z) (w : World) : World :=
  mkWorld (isConnected w) (isFinished w) (isDisposed w) (maxIdleInterval w)
    (idleTimer w) (lastActivity w) (cmLastActivity w)
    (realtimeRequestTimeout w) (timers w) (nextHandle w) t (trace w).
Definition do_effect (e : effect) (w : World) : World :=
  mkWorld (isConnected w) (isFinished w) (isDisposed w) (maxIdleInterval w)
    (idleTimer w) (lastActivity w) (cmLastActivity w)
    (realtimeRequestTimeout w) (timers w) (nextHandle w) (now w)
    (trace w ++ [e]).

(** [setTimeout(cb, delay)]: a fresh handle, pending in the host. *)
Definition setTimeout (delay : Z) (w : World) : handle * World :=
  let h := nextHandle w in
  (h, mkWorld (isConnected w) (isFinished w) (isDisposed w)
        (maxIdleInterval w) (idleTimer w) (lastActivity w) (cmLastActivity w)
        (realtimeRequestTimeout w) (<[h := delay]> (timers w))
        (Pos.succ h) (now w) (trace w ++ [SetTimeout h delay])).

(** [clearTimeout(h ?? undefined)]: cancels [h] if it is pending, and does
    nothing for [undefined]. *)
Definition clearTimeout (h : option handle) (w : World) : World :=
  mkWorld (isConnected w) (isFinished w) (isDisposed w)
    (maxIdleInterval w) (idleTimer w) (lastActivity w) (cmLastActivity w)
    (realtimeRequestTimeout w)
    (match h with Some k => delete k (timers w) | None => timers w end)
    (nextHandle w) (now w) (trace w ++ [ClearTimeout h]).

(** *** Methods

    A method returns the state it leaves and whether it returned normally
    or threw. *)
Inductive completion :=
| Returned
| Threw (msg : string).

Definition M := World → World * completion.

Definition ret : M := λ w, (w, Returned).
Definition throw (msg : string) : M := λ w, (w, Threw msg).
Definition seq (a b : M) : M :=
  λ w, match a w with
       | (w', Returned) => b w'
       | (w', Threw m) => (w', Threw m)
       end.
Definition lift (f : World → World) : M := λ w, (f w, Returned).

Notation "a >> b" := (seq a b) (at level 66, right associativity).

Definition exec (m : M) (w : World) : World := fst (m w).

Section Methods.

Variable ConnectionErrors : ConnectionErrorsT.

Definition emit (event : string) (args : list payload) : M :=
  lift (do_effect (Emit event args)).

Definition send (m : ProtocolMessage) : M := lift (do_effect (Send m)).

Definition connect : M := ret.

Definition requestClose : M := send closeMessage.

Definition requestDisconnect : M := send disconnectMessage.

Definition dispose : M :=
  lift (set_isDisposed true) >> lift (do_effect Off).

Definition finish (event : string) (err : option ErrorVal) : M :=
  λ w,
    if isFinished w then ret w
    else
      (lift (set_isFinished true) >>
       lift (set_isConnected false) >>
       lift (set_maxIdleInterval None) >>
       (λ w, lift (clearTimeout (idleTimer w)) w) >>
       lift (set_idleTimer None) >>
       emit event [PErr err] >>
       dispose) w.

Definition close : M :=
  (λ w, if isConnected w then requestClose w else ret w) >>
  finish "closed" (ce_closed ConnectionErrors).

Definition disconnect (err : option ErrorVal) : M :=
  (λ w, if isConnected w then requestDisconnect w else ret w) >>
  finish "disconnected" (orElse err (ce_disconnected ConnectionErrors)).

Definition fail (err : option ErrorVal) : M :=
  (λ w, if isConnected w then requestDisconnect w else ret w) >>
  finish "failed" (orElse err (ce_failed ConnectionErrors)).

Definition setIdleTimer (timeout : Z) : M :=
  λ w,
    match idleTimer w with
    | Some _ => ret w
    | None =>
        let (h, w') := setTimeout timeout w in
        ret (set_idleTimer (Some h) w')
    end.

Definition onActivity : M :=
  λ w,
    if negb (truthyZ (maxIdleInterval w)) then ret w
    else
      (lift (set_lastActivity (Some (now w))) >>
       setIdleTimer (default 0 (maxIdleInterval w) + 100)) w.

Definition onConnect (message : ProtocolMessage) : M :=
  lift (set_isConnected true) >>
  match connectionDetails message with
  | None =>
      throw "Transport.onConnect(): Connect message recieved without connectionDetails"
  | Some details =>
      let maxPromisedIdle := cd_maxIdleInterval details in
      if truthyZ maxPromisedIdle then
        (λ w, lift (set_maxIdleInterval
                 (Some (default 0 maxPromisedIdle + realtimeRequestTimeout w))) w) >>
        onActivity
      else ret
  end.

Definition onDisconnect (message : ProtocolMessage) : M :=
  finish "disconnected" (error message).

Definition onFatalError (message : ProtocolMessage) : M :=
  finish "failed" (error message).

Definition onClose (message : ProtocolMessage) : M :=
  finish "closed" (error message).

Definition ping (i : string) : M :=
  send (mkProtocolMessage HEARTBEAT
          (if String.eqb i "" then None else Some i)
          None None None None None None).

(** The text of the idle-timeout error. *)
Definition idleMessage (sinceLast : Z) : string :=
  "No activity seen from realtime in " +:+ pretty sinceLast +:+
  "ms; assuming connection has dropped".

Definition idleError (sinceLast : Z) : ErrorVal :=
  EInfo (mkErrorInfo (idleMessage sinceLast) (Some 80003) (Some 408)).

Definition onIdleTimerExpire : M :=
  λ w,
    if negb (truthyZ (lastActivity w)) || negb (truthyZ (maxIdleInterval w)) then
      throw "Transport.onIdleTimerExpire(): lastActivity/maxIdleInterval not set" w
    else
      (lift (set_idleTimer None) >>
       (λ w,
          let sinceLast := now w - default 0 (lastActivity w) in
          let timeRemaining := default 0 (maxIdleInterval w) - sinceLast in
          if timeRemaining <=? 0 then
            disconnect (Some (idleError sinceLast)) w
          else
            setIdleTimer (timeRemaining + 100) w)) w.

Definition onProtocolMessage (message : ProtocolMessage) : M :=
  onActivity >>
  match action message with
  | HEARTBEAT => emit "heartbeat" [PStr (id message)]
  | CONNECTED =>
      onConnect message >>
      emit "connected"
        [PErr (error message); PStr (connectionId message);
         PDetails (connectionDetails message); PMsg message]
  | CLOSED => onClose message
  | DISCONNECTED => onDisconnect message
  | ACK => emit "ack" [PNum (msgSerial message); PNum (count message)]
  | NACK =>
      emit "nack"
        [PNum (msgSerial message); PNum (count message); PErr (error message)]
  | SYNC =>
      match connectionId message with
      | Some _ => emit "sync" [PStr (connectionId message); PMsg message]
      | None => lift (do_effect (OnChannelMessage message))
      end
  | AUTH => lift (do_effect Authorize)
  | ERROR =>
      match channel message with
      | None => onFatalError message
      | Some _ => lift (do_effect (OnChannelMessage message))
      end
  | _ => lift (do_effect (OnChannelMessage message))
  end.

(** *** Driving a transport

    What can happen to a transport: a call of one of its public methods, an
    inbound protocol message, the host running the callback of a pending
    timer (the handle leaves the pending set first), and the clock moving. *)
Inductive op :=
| Connect
| Close
| Disconnect (err : option ErrorVal)
| Fail (err : option ErrorVal)
| Finish (event : string) (err : option ErrorVal)
| Ping (i : string)
| Dispose
| Receive (message : ProtocolMessage)
| TimerFires (h : handle)
| Tick (t : Z).

Definition expire (h : handle) (w : World) : World :=
  mkWorld (isConnected w) (isFinished w) (isDisposed w)
    (maxIdleInterval w) (idleTimer w) (lastActivity w) (cmLastActivity w)
    (realtimeRequestTimeout w) (delete h (timers w))
    (nextHandle w) (now w) (trace w).

Definition run (o : op) : M :=
  match o with
  | Connect => connect
  | Close => close
  | Disconnect err => disconnect err
  | Fail err => fail err
  | Finish event err => finish event err
  | Ping i => ping i
  | Dispose => dispose
  | Receive message => onProtocolMessage message
  | TimerFires h =>
      λ w, match timers w !! h with
           | Some _ => onIdleTimerExpire (expire h w)
           | None => ret w
           end
  | Tick t => lift (set_now t)
  end.

(** A sequence of happenings; an exception thrown by one of them reaches
    its caller and the transport object lives on. *)
Definition runs (os : list op) (w : World) : World :=
  foldl (λ w o, exec (run o) w) w os.

End Methods.

(** *** Predicates used by the statements *)

Definition isEmit (e : effect) : bool :=
  match e with Emit _ _ => true | _ => false end.

Definition isSetTimeout (e : effect) : bool :=
  match e with SetTimeout _ _ => true | _ => false end.

Definition isOnChannelMessage (e : effect) : bool :=
  match e with OnChannelMessage _ => true | _ => false end.

Definition isSendOf (m : ProtocolMessage) (e : effect) : Prop := e = Send m.

(** A peer message that ends the transport: CLOSED, DISCONNECTED, or an
    ERROR without a channel. *)
Definition terminalMessage (m : ProtocolMessage) : bool :=
  match action m with
  | CLOSED | DISCONNECTED => true
  | ERROR => match channel m with None => true | Some _ => false end
  | _ => false
  end.

(** A local call or a peer message of the terminal kind. *)
Definition terminalOp (o : op) : bool :=
  match o with
  | Close | Disconnect _ | Fail _ | Finish _ _ => true
  | Receive msg => terminalMessage msg
  | _ => false
  end.

(** The invariant of the data model. *)
Definition disposedImpliesFinished (w : World) : Prop :=
  isDisposed w = true → isFinished w = true.

(** The pending timers of a transport: none, or exactly the one its
    [idleTimer] field holds. *)
Definition timersOwned (w : World) : Prop :=
  timers w = ∅ ∨ ∃ h d, idleTimer w = Some h ∧ timers w = {[h := d]}.

Definition notDispose (o : op) : Prop := o ≠ Dispose.

(** What a well-behaved peer and clock produce: a promised idle interval
    is not negative, and the clock never reads 0. *)
Definition saneOp (o : op) : Prop :=
  match o with
  | Tick t => t ≠ 0
  | Receive m =>
      ∀ d D, connectionDetails m = Some d →
             cd_maxIdleInterval d = Some D → 0 <= D
  | _ => True
  end.

(** While a timer is pending, the two fields its callback reads are
    set. *)
Definition monitorReady (w : World) : Prop :=
  timersOwned w ∧ now w ≠ 0 ∧ 0 <= realtimeRequestTimeout w ∧
  (timers w ≠ ∅ →
     truthyZ (maxIdleInterval w) = true ∧ truthyZ (lastActivity w) = true).

End Transport.

Module Fetch.

(** *** Strings *)

Definition lowerAscii (c : ascii) : ascii :=
  let n := nat_of_ascii c in
  if ((65 <=? n) && (n <=? 90))%nat then ascii_of_nat (n + 32) else c.

Definition upperAscii (c : ascii) : ascii :=
  let n := nat_of_ascii c in
  if ((97 <=? n) && (n <=? 122))%nat then ascii_of_nat (n - 32) else c.

Fixpoint mapString (f : ascii → ascii) (s : string) : string :=
  match s with
  | EmptyString => EmptyString
  | String c s' => String (f c) (mapString f s')
  end.

(** [s.toLowerCase()] and [s.toUpperCase()] on the ASCII letters of header
    names and HTTP methods. *)
Definition toLowerCase : string → string := mapString lowerAscii.
Definition toUpperCase : string → string := mapString upperAscii.

(** [s.indexOf(sub)]: the position of the first occurrence, or [-1]. *)
Fixpoint indexOfFrom (sub s : string) (i : Z) : Z :=
  if String.prefix sub s then i
  else match s with
       | EmptyString => -1
       | String _ s' => indexOfFrom sub s' (i + 1)
       end.

Definition indexOf (s sub : string) : Z := indexOfFrom sub s 0.

(** *** Header sets

    A [Headers] object: field names are case-insensitive and kept in lower
    case; [get] of a missing name is [null]. *)
Definition headersGet (name : string) (h : gmap string string) : option string :=
  h !! toLowerCase name.

Definition headersHas (name : string) (h : gmap string string) : bool :=
  bool_decide (is_Some (h !! toLowerCase name)).

Definition headersAppend (h : gmap string string) (kv : string * string) :
    gmap string string :=
  let k := toLowerCase kv.1 in
  match h !! k with
  | Some old => <[k := old +:+ ", " +:+ kv.2]> h
  | None => <[k := kv.2]> h
  end.

(** [new Headers(headers || {})]. *)
Definition newHeaders (o : option (list (string * string))) : gmap string string :=
  foldl headersAppend ∅ (default [] o).

(** *** Bodies *)

(** A decoded JSON value. *)
#[warnings="-register-all"]
Inductive json :=
| JNull
| JBool (b : bool)
| JNum (n : Z)
| JStr (s : string)
| JArr (items : list json)
| JObj (fields : list (string * json)).

(** What the three decoders give: [res.arrayBuffer()], [res.json()],
    [res.text()]. *)
Inductive Body :=
| BArrayBuffer (bytes : list Z)
| BJson (j : json)
| BText (s : string).

Inductive BodyKind := Binary | Json | Text.

Definition kindOf (b : Body) : BodyKind :=
  match b with
  | BArrayBuffer _ => Binary
  | BJson _ => Json
  | BText _ => Text
  end.

Definition sameKind (a b : BodyKind) : bool :=
  match a, b with
  | Binary, Binary | Json, Json | Text, Text => true
  | _, _ => false
  end.

Fixpoint fieldOf (name : string) (fields : list (string * json)) : option json :=
  match fields with
  | [] => None
  | (k, v) :: rest => if String.eqb k name then Some v else fieldOf name rest
  end.

(** JavaScript truthiness of a JSON value. *)
Definition truthyJ (j : json) : bool :=
  match j with
  | JNull => false
  | JBool b => b
  | JNum n => negb (n =? 0)
  | JStr s => negb (String.eqb s "")
  | JArr _ | JObj _ => true
  end.

(** The result of evaluating an expression that may throw. *)
Inductive result (A : Type) :=
| Value (a : A)
| Raise (e : ErrorVal).
Arguments Value {A} a.
Arguments Raise {A} e.

(** [responseBody.error]: the property of an object; [undefined] on a
    string, a number, a boolean, an array or an [ArrayBuffer]; a
    [TypeError] on [null]. *)
Definition errorProperty (b : Body) : result (option json) :=
  match b with
  | BJson JNull =>
      Raise (EPlain "TypeError" "Cannot read properties of null (reading 'error')")
  | BJson (JObj fields) => Value (fieldOf "error" fields)
  | _ => Value None
  end.

(** *** Requests and responses *)

Record Response := mkResponse {
  status : Z;
  headers : gmap string string
}.

(** [res.ok]: the status is in the range 200-299. *)
Definition ok (res : Response) : bool :=
  (200 <=? status res) && (status res <=? 299).

(** The options object handed to [fetch]; [ri_signal] is the abort
    controller whose signal the request listens to, if the object has a
    [signal] member. *)
Record RequestInit := mkRequestInit {
  ri_method : string;
  ri_headers : gmap string string;
  ri_body : option Body;
  ri_credentials : string;
  ri_signal : option nat
}.

(** [rest.options.timeouts.httpRequestTimeout]. *)
Record Rest := mkRest {
  httpRequestTimeout : Z
}.

(** The arguments of one call of the callback; an argument that was not
    passed is [None]. *)
Record CallbackArgs := mkCallbackArgs {
  cb_err : option ErrorVal;
  cb_body : option Body;
  cb_headers : option (gmap string string);
  cb_packed : option bool;
  cb_statusCode : option Z
}.

Inductive TimerState :=
| Armed (delay : Z)
| Fired
| Cleared.

Inductive FetchState :=
| InFlight
| AwaitingBody (res : Response)
| Settled.

(** One call of [fetchRequest] in progress. *)
Record Request := mkRequest {
  url : string;
  init : RequestInit;
  controller : nat;
  abortCalls : nat;
  timeout : TimerState;
  fetchState : FetchState;
  calls : list CallbackArgs;
  unhandled : list ErrorVal
}.

Definition set_timeout (t : TimerState) (r : Request) : Request :=
  mkRequest (url r) (init r) (controller r) (abortCalls r) t (fetchState r)
    (calls r) (unhandled r).
Definition set_fetchState (f : FetchState) (r : Request) : Request :=
  mkRequest (url r) (init r) (controller r) (abortCalls r) (timeout r) f
    (calls r) (unhandled r).
Definition callback (c : CallbackArgs) (r : Request) : Request :=
  mkRequest (url r) (init r) (controller r) (abortCalls r) (timeout r)
    (fetchState r) (calls r ++ [c]) (unhandled r).
Definition unhandledRejection (e : ErrorVal) (r : Request) : Request :=
  mkRequest (url r) (init r) (controller r) (abortCalls r) (timeout r)
    (fetchState r) (calls r) (unhandled r ++ [e]).
Definition countAbort (r : Request) : Request :=
  mkRequest (url r) (init r) (controller r) (S (abortCalls r)) (timeout r)
    (fetchState r) (calls r) (unhandled r).

(** [clearTimeout(timeout)]: disarms a pending timer; no effect on one that
    has fired. *)
Definition clearTimeout (r : Request) : Request :=
  match timeout r with
  | Armed _ => set_timeout Cleared r
  | _ => r
  end.

(** [callback(err)]. *)
Definition errorOnly (e : ErrorVal) : CallbackArgs :=
  mkCallbackArgs (Some e) None None None None.

Definition timedOut : ErrorVal :=
  EInfo (mkErrorInfo "Request timed out" None (Some 408)).

(** The reason a fetch rejects with when its signal is aborted. *)
Definition abortError : ErrorVal :=
  EPlain "AbortError" "The operation was aborted.".

Definition msgpack : string := "application/x-msgpack".

(** Which decoder the [then] handler picks. *)
Definition decoder (contentType : option string) : BodyKind :=
  if truthyS contentType && (indexOf (default "" contentType) msgpack >? -1)
  then Binary
  else if truthyS contentType &&
          (indexOf (default "" contentType) "application/json" >? -1)
  then Json
  else Text.

Definition packed (contentType : option string) : bool :=
  truthyS contentType && (indexOf (default "" contentType) msgpack =? -1).

Section Executor.

(** [ErrorInfo.fromValues], [Platform.Config.inspect], the rendering of a
    [URLSearchParams] and [Defaults.TIMEOUTS.httpRequestTimeout] are
    imported by the module and taken as given. *)
Variable fromValues : json → ErrorInfo.
Variable inspect : Body → string.
Variable searchParams : list (string * string) → string.
Variable defaultHttpRequestTimeout : Z.

Definition isAblyError (headers : gmap string string) : bool :=
  truthyS (headersGet "x-ably-errorcode" headers).

(** [undefined] when the header is missing; otherwise
    [responseBody.error && ErrorInfo.fromValues(responseBody.error)], which
    is an error object when [responseBody.error] is truthy and a falsy
    value ([None] here) when it is not. *)
Definition getAblyError (responseBody : Body) (headers : gmap string string) :
    result (option ErrorVal) :=
  if isAblyError headers then
    match errorProperty responseBody with
    | Raise e => Raise e
    | Value (Some v) =>
        if truthyJ v then Value (Some (EInfo (fromValues v))) else Value None
    | Value None => Value None
    end
  else Value None.

Definition genericError (res : Response) (body : Body) : ErrorVal :=
  EInfo (mkErrorInfo
           ("Error response received from server: " +:+ pretty (status res) +:+
            " body was: " +:+ inspect body)
           None (Some (status res))).

(** Modelled from the spec: [Utils.isEmptyArg] lives in
    [common/lib/util/utils], outside the files at hand; the method is GET
    when no body was supplied. *)
Definition isEmptyArg (body : option Body) : bool :=
  match body with
  | None => true
  | Some _ => false
  end.

(** The synchronous part of [fetchRequest]: the controller is created, the
    timer is armed, and the request is handed to [fetch]. *)
Definition fetchRequest (method : option string) (rest : option Rest)
    (uri : string) (hdrs : option (list (string * string)))
    (params : option (list (string * string))) (body : option Body) : Request :=
  let fetchHeaders := newHeaders hdrs in
  let _method :=
    if truthyS method then toUpperCase (default "" method)
    else if isEmptyArg body then "GET" else "POST" in
  {| url := uri +:+ "?" +:+ searchParams (default [] params);
     init := {| ri_method := _method;
                ri_headers := fetchHeaders;
                ri_body := body;
                ri_credentials :=
                  if headersHas "authorization" fetchHeaders
                  then "include" else "same-origin";
                ri_signal := None |};
     controller := 0%nat;
     abortCalls := 0%nat;
     timeout :=
       Armed (match rest with
              | Some r => httpRequestTimeout r
              | None => defaultHttpRequestTimeout
              end);
     fetchState := InFlight;
     calls := [];
     unhandled := [] |}.

(** The [catch] handler. *)
Definition onRejected (err : ErrorVal) (r : Request) : Request :=
  callback (errorOnly err) (clearTimeout r).

(** [controller.abort()]: the call is counted; a fetch in flight that was
    given this controller's signal rejects with an abort error, and the
    [catch] handler for it runs once the current handler has returned. *)
Definition abort (r : Request) : Request * option ErrorVal :=
  let r' := countAbort r in
  match fetchState r, ri_signal (init r) with
  | InFlight, Some c =>
      if Nat.eqb c (controller r)
      then (set_fetchState Settled r', Some abortError)
      else (r', None)
  | _, _ => (r', None)
  end.

(** The timer callback. *)
Definition onTimeout (r : Request) : Request :=
  let (r1, rejection) := abort r in
  let r2 := callback (errorOnly timedOut) r1 in
  match rejection with
  | Some e => onRejected e r2
  | None => r2
  end.

(** The outer [then] handler, up to the point where it waits for the
    body. *)
Definition onResponse (res : Response) (r : Request) : Request :=
  set_fetchState (AwaitingBody res) (clearTimeout r).

(** The inner [then] handler. *)
Definition onBody (res : Response) (body : Body) (r : Request) : Request :=
  let contentType := headersGet "Content-Type" (headers res) in
  let pk := packed contentType in
  if negb (ok res) then
    match getAblyError body (headers res) with
    | Raise e => unhandledRejection e r
    | Value found =>
        let err := orElse found (Some (genericError res body)) in
        callback (mkCallbackArgs err (Some body) (Some (headers res))
                    (Some pk) (Some (status res))) r
    end
  else
    callback (mkCallbackArgs None (Some body) (Some (headers res))
                (Some pk) (Some (status res))) r.

(** What the host can deliver to a request in progress. *)
Inductive event :=
| TimeoutFires
| ResponseArrives (res : Response)
| BodyDecoded (body : Body)
| BodyFails (e : ErrorVal)
| FetchFails (e : ErrorVal).

(** An event that cannot happen in the current state (a timer that is not
    pending, a response for a fetch that has settled, a body of another
    kind than the decoder chosen) leaves the request as it is. *)
Definition step (ev : event) (r : Request) : Request :=
  match ev with
  | TimeoutFires =>
      match timeout r with
      | Armed _ => onTimeout (set_timeout Fired r)
      | _ => r
      end
  | ResponseArrives res =>
      match fetchState r with
      | InFlight => onResponse res r
      | _ => r
      end
  | BodyDecoded body =>
      match fetchState r with
      | AwaitingBody res =>
          if sameKind (kindOf body)
               (decoder (headersGet "Content-Type" (headers res)))
          then onBody res body (set_fetchState Settled r)
          else r
      | _ => r
      end
  | BodyFails e =>
      match fetchState r with
      | AwaitingBody _ => unhandledRejection e (set_fetchState Settled r)
      | _ => r
      end
  | FetchFails e =>
      match fetchState r with
      | InFlight => onRejected e (set_fetchState Settled r)
      | _ => r
      end
  end.

Definition steps (evs : list event) (r : Request) : Request :=
  foldl (λ r ev, step ev r) r evs.

End Executor.

End Fetch.

(** ** Sample values used by the examples *)

(** A table of classified connection errors. *)
Definition sampleErrors : Transport.ConnectionErrorsT :=
  Transport.mkConnectionErrors
    (Some (EInfo (mkErrorInfo "Connection closed" (Some 80017) (Some 400))))
    (Some (EInfo (mkErrorInfo "Connection to server temporarily unavailable"
                    (Some 80003) (Some 400))))
    (Some (EInfo (mkErrorInfo "Connection failed or disconnected by server"
                    (Some 80000) (Some 400)))).

(** A CONNECTED message that promises an idle interval of 15000. *)
Definition connectedMsg : Transport.ProtocolMessage :=
  Transport.mkProtocolMessage Transport.CONNECTED None None (Some "c1")
    None None None (Some (Transport.mkConnectionDetails (Some 15000))).

Definition closedMsg : Transport.ProtocolMessage :=
  Transport.fromAction Transport.CLOSED.

(** A transport that was closed before the peer's CONNECTED arrived, and
    whose idle timer, armed by that CONNECTED, has since run out. *)
Definition lateConnected : Transport.World :=
  Transport.runs sampleErrors
    [Transport.Close; Transport.Receive connectedMsg; Transport.Tick 26100;
     Transport.TimerFires 1%positive; Transport.Tick 27000]
    (Transport.init 10000 1000).

(** An ERROR without a channel, and one for a channel. *)
Definition tokenRevoked : ErrorVal :=
  EInfo (mkErrorInfo "Token revoked" (Some 40141) (Some 401)).

Definition fatalErrorMsg : Transport.ProtocolMessage :=
  Transport.mkProtocolMessage Transport.ERROR None None None None None
    (Some tokenRevoked) None.

Definition channelErrorMsg : Transport.ProtocolMessage :=
  Transport.mkProtocolMessage Transport.ERROR None (Some "chat") None None
    None (Some tokenRevoked) None.

(** A transport that received CONNECTED at time 1000 and has been silent
    since. *)
Definition connectedAt1000 : Transport.World :=
  Transport.runs sampleErrors [Transport.Receive connectedMsg]
    (Transport.init 10000 1000).

(** Stand-ins for the imported functions of the request executor. *)
Definition sampleFromValues (j : Fetch.json) : ErrorInfo :=
  match j with
  | Fetch.JObj fields =>
      mkErrorInfo
        (match Fetch.fieldOf "message" fields with
         | Some (Fetch.JStr m) => m
         | _ => ""
         end)
        (match Fetch.fieldOf "code" fields with
         | Some (Fetch.JNum n) => Some n
         | _ => None
         end)
        (match Fetch.fieldOf "statusCode" fields with
         | Some (Fetch.JNum n) => Some n
         | _ => None
         end)
  | _ => mkErrorInfo "" None None
  end.

Definition sampleInspect (b : Fetch.Body) : string :=
  match b with
  | Fetch.BText t => t
  | Fetch.BJson _ => "[json]"
  | Fetch.BArrayBuffer _ => "[binary]"
  end.

Definition sampleSearchParams (ps : list (string * string)) : string :=
  foldr (λ kv acc, kv.1 +:+ "=" +:+ kv.2 +:+ "&" +:+ acc) "" ps.

(** A GET of the service time, with the default timeout of 10000. *)
Definition timeRequest : Fetch.Request :=
  Fetch.fetchRequest sampleSearchParams 10000 (Some "get") None
    "https://rest.ably.io/time" None None None.



(** A 502 that carries the service error code, but whose JSON body has no
    [error] member. *)
Definition badGateway : Fetch.Response :=
  Fetch.mkResponse 502
    (Fetch.newHeaders
       (Some [("Content-Type", "application/json");
              ("X-Ably-Errorcode", "50000")])).


(** A 200 with a JSON body. *)
Definition okResponse : Fetch.Response :=
  Fetch.mkResponse 200
    (Fetch.newHeaders (Some [("Content-Type", "application/json")])).

Definition okBody : Fetch.Body := Fetch.BJson (Fetch.JArr [Fetch.JNum 1700000000000]).

(** The arguments of the callback for a response with status, headers and
    body. *)
Definition responseArgs (err : option ErrorVal) (res : Fetch.Response)
    (body : Fetch.Body) : Fetch.CallbackArgs :=
  Fetch.mkCallbackArgs err (Some body) (Some (Fetch.headers res))
    (Some (Fetch.packed (Fetch.headersGet "Content-Type" (Fetch.headers res))))
    (Some (Fetch.status res)).


(** ** Statements about traces *)

(** Every effect recorded between [w] and [w'] satisfies [P]. *)
Definition added (P : Transport.effect → Prop) (w w' : Transport.World) : Prop :=
  ∃ l, Transport.trace w' = Transport.trace w ++ l ∧ Forall P l.

(** Between [w] and [w'] no event was emitted. *)
Definition noEmit : Transport.World → Transport.World → Prop :=
  added (λ e, Transport.isEmit e = false).

(** Between [w] and [w'] no timer was armed. *)
Definition noTimerArmed : Transport.World → Transport.World → Prop :=
  added (λ e, Transport.isSetTimeout e = false).

(** Between [w] and [w'] nothing was handed to the channel-message
    handler. *)
Definition notForwarded : Transport.World → Transport.World → Prop :=
  added (λ e, Transport.isOnChannelMessage e = false).

(** A method keeps a property of the state, whether it returns or
    throws. *)
Definition preserves (P : Transport.World → Prop) (m : Transport.M) : Prop :=
  ∀ w, P w → P (Transport.exec m w).

(** The state a first [finish event err] leaves. *)
Definition finished (event : string) (err : option ErrorVal)
    (w : Transport.World) : Transport.World :=
  Transport.mkWorld false true true None None
    (Transport.lastActivity w) (Transport.cmLastActivity w)
    (Transport.realtimeRequestTimeout w)
    (match Transport.idleTimer w with
     | Some h => delete h (Transport.timers w)
     | None => Transport.timers w
     end)
    (Transport.nextHandle w) (Transport.now w)
    (Transport.trace w ++
       [Transport.ClearTimeout (Transport.idleTimer w);
        Transport.Emit event [Transport.PErr err];
        Transport.Off]).

(** The state after a timer with delay [d] was armed and stored in
    [idleTimer]. *)
Definition armed (d : Z) (w : Transport.World) : Transport.World :=
  Transport.mkWorld (Transport.isConnected w) (Transport.isFinished w)
    (Transport.isDisposed w) (Transport.maxIdleInterval w)
    (Some (Transport.nextHandle w))
    (Transport.lastActivity w) (Transport.cmLastActivity w)
    (Transport.realtimeRequestTimeout w)
    (<[Transport.nextHandle w := d]> (Transport.timers w))
    (Pos.succ (Transport.nextHandle w)) (Transport.now w)
    (Transport.trace w ++ [Transport.SetTimeout (Transport.nextHandle w) d]).

(** The state [onActivity] leaves when the monitor is active with interval
    [m]: the stamp is taken, and a timer is armed unless one is held. *)
Definition stamped (m : Z) (w : Transport.World) : Transport.World :=
  let w1 := Transport.set_lastActivity (Some (Transport.now w)) w in
  match Transport.idleTimer w with
  | Some _ => w1
  | None => armed (m + 100) w1
  end.

(** The state after the transport sent [m] if it was connected. *)
Definition sentIfConnected (m : Transport.ProtocolMessage)
    (w : Transport.World) : Transport.World :=
  if Transport.isConnected w then Transport.do_effect (Transport.Send m) w
  else w.

(** ** Statements about runs *)

Definition isSend (e : Transport.effect) : bool :=
  match e with Transport.Send _ => true | _ => false end.

Definition isOff (e : Transport.effect) : bool :=
  match e with Transport.Off => true | _ => false end.

(** The names of the three outcomes. *)
Definition isOutcomeName (event : string) : bool :=
  String.eqb event "closed" || String.eqb event "disconnected" ||
  String.eqb event "failed".

Definition isOutcome (e : Transport.effect) : bool :=
  match e with Transport.Emit event _ => isOutcomeName event | _ => false end.

(** How many of the effects of [w] satisfy [p]. *)
Definition countEffects (p : Transport.effect → bool) (w : Transport.World) : nat :=
  List.length (List.filter p (Transport.trace w)).

(** An effect that is neither an outcome event nor the detaching of the
    listeners. *)
Definition benign (e : Transport.effect) : Prop :=
  isOutcome e = false ∧ isOff e = false.

(** A step that leaves the finished and disposed flags alone and records
    only benign effects. *)
Definition quietStep (w w' : Transport.World) : Prop :=
  Transport.isFinished w' = Transport.isFinished w ∧
  Transport.isDisposed w' = Transport.isDisposed w ∧
  added benign w w'.

(** A direct call of [finish] names one of the three outcomes. *)
Definition finishesWithOutcome (o : Transport.op) : Prop :=
  match o with
  | Transport.Finish event _ => isOutcomeName event = true
  | _ => True
  end.

(** The messages [onProtocolMessage] hands to the channel-message handler:
    a SYNC without a connection id, an ERROR with a channel, and every
    action that has no case of its own. *)
Definition channelScoped (m : Transport.ProtocolMessage) : bool :=
  match Transport.action m with
  | Transport.SYNC =>
      match Transport.connectionId m with
      | None => true
      | Some _ => false
      end
  | Transport.ERROR =>
      match Transport.channel m with
      | Some _ => true
      | None => false
      end
  | Transport.HEARTBEAT | Transport.CONNECTED | Transport.CLOSED
  | Transport.DISCONNECTED | Transport.ACK | Transport.NACK
  | Transport.AUTH => false
  | _ => true
  end.

(** A CONNECTED message whose connection details promise an idle
    interval. *)
Definition promisesIdle (o : Transport.op) : bool :=
  match o with
  | Transport.Receive m =>
      match Transport.action m, Transport.connectionDetails m with
      | Transport.CONNECTED, Some d =>
          truthyZ (Transport.cd_maxIdleInterval d)
      | _, _ => false
      end
  | _ => false
  end.

(** A message that the transport consumes without connecting or
    finishing: everything but CONNECTED, CLOSED, DISCONNECTED and an ERROR
    without a channel. *)
Definition plainMessage (m : Transport.ProtocolMessage) : bool :=
  match Transport.action m with
  | Transport.CONNECTED | Transport.CLOSED | Transport.DISCONNECTED => false
  | Transport.ERROR =>
      match Transport.channel m with
      | Some _ => true
      | None => false
      end
  | _ => true
  end.

(** The idle monitor was never switched on: no interval, no timer held or
    pending, and no timer ever armed. *)
Definition monitorOff (w : Transport.World) : Prop :=
  Transport.maxIdleInterval w = None ∧ Transport.idleTimer w = None ∧
  Transport.timers w = ∅ ∧
  Forall (λ e, Transport.isSetTimeout e = false) (Transport.trace w).

(** The method returned normally. *)
Definition returns (m : Transport.M) (w : Transport.World) : Prop :=
  ∃ w', m w = (w', Transport.Returned).

(** A CONNECTED message that carries no connection details. *)
Definition connectedWithoutDetails (o : Transport.op) : bool :=
  match o with
  | Transport.Receive m =>
      match Transport.action m, Transport.connectionDetails m with
      | Transport.CONNECTED, None => true
      | _, _ => false
      end
  | _ => false
  end.

(** ** Statements about requests *)

Definition isTimeoutFires (ev : Fetch.event) : bool :=
  match ev with Fetch.TimeoutFires => true | _ => false end.

Definition timerPending (r : Fetch.Request) : bool :=
  match Fetch.timeout r with Fetch.Armed _ => true | _ => false end.

Definition timerFired (r : Fetch.Request) : bool :=
  match Fetch.timeout r with Fetch.Fired => true | _ => false end.

Definition fetchInFlight (r : Fetch.Request) : bool :=
  match Fetch.fetchState r with Fetch.InFlight => true | _ => false end.

Definition fetchSettled (r : Fetch.Request) : bool :=
  match Fetch.fetchState r with Fetch.Settled => true | _ => false end.

(** The two events by which the fetch settles on its own: a response
    arrives, or the fetch is rejected. *)
Definition fetchSettles (ev : Fetch.event) : bool :=
  match ev with
  | Fetch.ResponseArrives _ | Fetch.FetchFails _ => true
  | _ => false
  end.

(** The options object handed to [fetch] has no [signal] member. *)
Definition unwired (r : Fetch.Request) : Prop :=
  Fetch.ri_signal (Fetch.init r) = None.

(** The callback was called at most once by the timer callback and at most
    once by the handlers of the fetch. *)
Definition withinBudget (r : Fetch.Request) : Prop :=
  (List.length (Fetch.calls r) ≤
     (if timerFired r then 1 else 0) + (if fetchSettled r then 1 else 0))%nat.

(** What every run of a request keeps. *)
Definition requestInv (r : Fetch.Request) : Prop :=
  unwired r ∧ withinBudget r ∧
  (fetchInFlight r = false → timerPending r = false).

(** The [TypeError] of reading [error] off [null]. *)
Definition nullErrorProperty : ErrorVal :=
  EPlain "TypeError" "Cannot read properties of null (reading 'error')".

Definition heartbeatMsg : Transport.ProtocolMessage :=
  Transport.fromAction Transport.HEARTBEAT.

Section TransportProperties.

Import Transport.

Variable CE : ConnectionErrorsT.

(** Reads fields through the field updates. *)
Ltac fields :=
  cbn [isConnected isFinished isDisposed maxIdleInterval idleTimer
       lastActivity cmLastActivity realtimeRequestTimeout timers nextHandle
       now trace fst snd
       do_effect set_isConnected set_isFinished set_isDisposed
       set_maxIdleInterval set_idleTimer set_lastActivity set_now
       clearTimeout setTimeout expire seq lift ret emit send dispose] in *.

(** *** Basic facts *)

Lemma world_ext (w1 w2 : World) :
  isConnected w1 = isConnected w2 → isFinished w1 = isFinished w2 →
  isDisposed w1 = isDisposed w2 → maxIdleInterval w1 = maxIdleInterval w2 →
  idleTimer w1 = idleTimer w2 → lastActivity w1 = lastActivity w2 →
  cmLastActivity w1 = cmLastActivity w2 →
  realtimeRequestTimeout w1 = realtimeRequestTimeout w2 →
  timers w1 = timers w2 → nextHandle w1 = nextHandle w2 →
  now w1 = now w2 → trace w1 = trace w2 → w1 = w2.
Proof. destruct w1, w2; cbn; intros; subst; reflexivity. Qed.

Lemma truthyZ_Some (o : option Z) :
  truthyZ o = true ↔ ∃ z, o = Some z ∧ z ≠ 0.
Proof.
  destruct o as [z|]; simpl.
  - rewrite negb_true_iff, Z.eqb_neq. split.
    + intros H; exists z; auto.
    + intros (z' & E & H); congruence.
  - split; [discriminate | intros (z & E & _); discriminate].
Qed.

Lemma finish_finished event err w :
  isFinished w = true → finish event err w = (w, Returned).
Proof. intros H. unfold finish. rewrite H. reflexivity. Qed.

Lemma finish_first event err w :
  isFinished w = false →
  finish event err w = (finished event err w, Returned).
Proof.
  intros H. unfold finish. rewrite H.
  fields. unfold lift. f_equal.
  apply world_ext; unfold finished; fields; try reflexivity.
  rewrite <- !app_assoc. reflexivity.
Qed.

Lemma onActivity_inactive w :
  truthyZ (maxIdleInterval w) = false → onActivity w = (w, Returned).
Proof. intros H. unfold onActivity. rewrite H. reflexivity. Qed.

Lemma onActivity_active m w :
  maxIdleInterval w = Some m → m ≠ 0 →
  onActivity w = (stamped m w, Returned).
Proof.
  intros Hm Hz. unfold onActivity, stamped.
  rewrite Hm. simpl. apply Z.eqb_neq in Hz. rewrite Hz. simpl.
  unfold seq, lift, setIdleTimer. simpl.
  destruct (idleTimer w); reflexivity.
Qed.

Lemma setIdleTimer_free d w :
  idleTimer w = None → setIdleTimer d w = (armed d w, Returned).
Proof. intros H. unfold setIdleTimer. rewrite H. reflexivity. Qed.

Lemma setIdleTimer_held d w :
  is_Some (idleTimer w) → setIdleTimer d w = (w, Returned).
Proof. intros [h H]. unfold setIdleTimer. rewrite H. reflexivity. Qed.

Lemma added_refl P w : added P w w.
Proof. exists []. rewrite app_nil_r. auto. Qed.

Lemma added_more P w w1 w2 es :
  added P w w1 → trace w2 = trace w1 ++ es → Forall P es → added P w w2.
Proof.
  intros (l & Hl & Hall) H2 Hes. exists (l ++ es).
  rewrite H2, Hl, app_assoc. split; [reflexivity |].
  apply Forall_app. auto.
Qed.

Lemma noEmit_refl w : noEmit w w.
Proof. apply added_refl. Qed.

Lemma noTimerArmed_refl w : noTimerArmed w w.
Proof. apply added_refl. Qed.

Lemma onActivity_returns w : ∃ w', onActivity w = (w', Returned).
Proof.
  destruct (truthyZ (maxIdleInterval w)) eqn:E.
  - apply truthyZ_Some in E as (m & Hm & Hz).
    eexists. apply (onActivity_active m); auto.
  - eexists. apply onActivity_inactive; auto.
Qed.

(** [onActivity] emits nothing, forwards nothing, and leaves the three
    flags alone. *)
Lemma onActivity_quiet w :
  noEmit w (exec onActivity w) ∧
  notForwarded w (exec onActivity w) ∧
  isFinished (exec onActivity w) = isFinished w ∧
  isConnected (exec onActivity w) = isConnected w ∧
  isDisposed (exec onActivity w) = isDisposed w ∧
  maxIdleInterval (exec onActivity w) = maxIdleInterval w.
Proof.
  unfold exec. destruct (truthyZ (maxIdleInterval w)) eqn:E.
  - apply truthyZ_Some in E as (m & Hm & Hz).
    rewrite (onActivity_active m) by auto. simpl.
    unfold stamped. destruct (idleTimer w); simpl.
    + repeat split; auto; exists []; rewrite app_nil_r; auto.
    + repeat split; auto; eexists; split; eauto.
  - rewrite onActivity_inactive by auto. simpl.
    repeat split; auto; exists []; rewrite app_nil_r; auto.
Qed.


(** *** The finish gate *)

Lemma local_ops_finished w :
  isFinished w = true →
  close CE w = (sentIfConnected closeMessage w, Returned) ∧
  (∀ err, disconnect CE err w =
            (sentIfConnected disconnectMessage w, Returned)) ∧
  (∀ err, fail CE err w = (sentIfConnected disconnectMessage w, Returned)).
Proof.
  intros H.
  assert (Hs : ∀ m, isFinished (sentIfConnected m w) = true).
  { intros m. unfold sentIfConnected. destruct (isConnected w); auto. }
  unfold close, disconnect, fail, seq, requestClose, requestDisconnect,
    send, lift, ret.
  repeat split; intros;
    (destruct (isConnected w) eqn:E;
     [ rewrite finish_finished by (fields; auto)
     | rewrite finish_finished by auto ];
     unfold sentIfConnected; rewrite E; reflexivity).
Qed.

Lemma sentIfConnected_quiet m w :
  noEmit w (sentIfConnected m w) ∧ noTimerArmed w (sentIfConnected m w) ∧
  isFinished (sentIfConnected m w) = isFinished w.
Proof.
  unfold sentIfConnected. destruct (isConnected w).
  - repeat split; auto; exists [Send m]; split; auto.
  - repeat split; auto using noEmit_refl, noTimerArmed_refl.
Qed.

Lemma terminal_message_is_finish msg w :
  terminalMessage msg = true →
  ∃ event,
    onProtocolMessage msg w = finish event (error msg) (exec onActivity w).
Proof.
  intros Ht. unfold terminalMessage in Ht.
  unfold onProtocolMessage, seq, exec.
  destruct (onActivity_returns w) as [w' Hw']. rewrite Hw'. simpl.
  destruct (action msg); try discriminate.
  - exists "disconnected". reflexivity.
  - exists "closed". reflexivity.
  - destruct (channel msg); try discriminate.
    exists "failed". reflexivity.
Qed.

(** C1 (as amended).  On a finished transport [finish] changes nothing;
    [close], [disconnect] and [fail] emit no event, arm no timer and leave
    it finished; a peer CLOSED, DISCONNECTED or fatal ERROR emits no
    event, and changes nothing at all while [maxIdleInterval] is unset, as
    [finish] leaves it.  The first [finish] marks the transport finished
    and not connected, sets [maxIdleInterval] and [idleTimer] to null,
    clears the timer, emits the one outcome event with the error and then
    disposes. *)
Theorem finish_is_idempotent (w : World) :
  (isFinished w = true →
     (∀ event err, finish event err w = (w, Returned)) ∧
     (∀ err m, m ∈ [close CE; disconnect CE err; fail CE err] →
        noEmit w (exec m w) ∧ noTimerArmed w (exec m w) ∧
        isFinished (exec m w) = true) ∧
     (∀ msg, terminalMessage msg = true →
        noEmit w (exec (onProtocolMessage msg) w) ∧
        isFinished (exec (onProtocolMessage msg) w) = true ∧
        (truthyZ (maxIdleInterval w) = false →
           onProtocolMessage msg w = (w, Returned)))) ∧
  (isFinished w = false →
     ∀ event err,
       finish event err w = (finished event err w, Returned) ∧
       isFinished (finished event err w) = true ∧
       isConnected (finished event err w) = false ∧
       maxIdleInterval (finished event err w) = None ∧
       idleTimer (finished event err w) = None ∧
       isDisposed (finished event err w) = true ∧
       trace (finished event err w) =
         trace w ++ [ClearTimeout (idleTimer w); Emit event [PErr err]; Off]).
Proof.
  split.
  - intros Hf. split; [| split].
    + intros. apply finish_finished; auto.
    + intros err m Hm.
      destruct (local_ops_finished w Hf) as (Hc & Hd & Hl).
      destruct (sentIfConnected_quiet closeMessage w) as (? & ? & E1).
      destruct (sentIfConnected_quiet disconnectMessage w) as (? & ? & E2).
      rewrite Hf in E1, E2.
      rewrite !elem_of_cons in Hm.
      destruct Hm as [-> | [-> | [-> | Hm]]]; unfold exec.
      * rewrite Hc; auto.
      * rewrite Hd; auto.
      * rewrite Hl; auto.
      * inversion Hm.
    + intros msg Ht.
      destruct (terminal_message_is_finish msg w Ht) as [event He].
      destruct (onActivity_quiet w) as (Hq & _ & Hfin & _).
      assert (Hf' : isFinished (exec onActivity w) = true) by congruence.
      unfold exec at 1 2. rewrite He.
      rewrite finish_finished by auto. simpl.
      repeat split; auto.
      intros Hm. unfold exec. rewrite onActivity_inactive by auto.
      reflexivity.
  - intros Hf event err. repeat split; auto using finish_first.
Qed.


(** After the first [finish], any sequence of [close], [disconnect],
    [fail], [finish] and terminal peer messages leaves the transport
    exactly as [finish] left it: nothing is emitted, sent or armed. *)
Lemma terminal_ops_after_finish event err os w :
  isFinished w = false →
  forallb terminalOp os = true →
  runs CE os (exec (finish event err) w) = exec (finish event err) w.
Proof.
  intros Hf. unfold exec. rewrite finish_first by auto. simpl.
  set (w1 := finished event err w).
  assert (H1 : isFinished w1 = true) by reflexivity.
  assert (H2 : isConnected w1 = false) by reflexivity.
  assert (H3 : truthyZ (maxIdleInterval w1) = false) by reflexivity.
  clearbody w1. clear Hf.
  induction os as [|o os IH]; intros Hall; [reflexivity |].
  simpl in Hall. apply andb_true_iff in Hall as [Ho Hos].
  simpl. assert (E : exec (run CE o) w1 = w1).
  { destruct (local_ops_finished w1 H1) as (Hc & Hd & Hl).
    unfold exec, sentIfConnected in *. rewrite H2 in *.
    destruct o; simpl in Ho; try discriminate; simpl.
    - rewrite Hc; reflexivity.
    - rewrite Hd; reflexivity.
    - rewrite Hl; reflexivity.
    - rewrite finish_finished; auto.
    - destruct (terminal_message_is_finish message w1 Ho) as [ev He].
      rewrite He. unfold exec. rewrite onActivity_inactive by auto.
      simpl. rewrite finish_finished; auto. }
  rewrite E. apply IH; auto.
Qed.

(** *** Dispatch of ERROR *)

(** C2.  An ERROR without a channel goes through [finish] with outcome
    "failed" and the message's error, and is not handed to the
    channel-message handler; on a transport that is not finished this
    emits "failed" with that error.  An ERROR with a channel is handed,
    as it is, to the channel-message handler, and neither emits an event
    nor finishes the transport. *)
Theorem error_message_dispatch (msg : ProtocolMessage) (w : World) :
  action msg = ERROR →
  (channel msg = None →
     onProtocolMessage msg w =
       finish "failed" (error msg) (exec onActivity w) ∧
     notForwarded w (exec (onProtocolMessage msg) w) ∧
     (isFinished w = false →
        onProtocolMessage msg w =
          (finished "failed" (error msg) (exec onActivity w), Returned) ∧
        trace (exec (onProtocolMessage msg) w) =
          trace (exec onActivity w) ++
            [ClearTimeout (idleTimer (exec onActivity w));
             Emit "failed" [PErr (error msg)]; Off])) ∧
  (∀ c, channel msg = Some c →
     onProtocolMessage msg w =
       (do_effect (OnChannelMessage msg) (exec onActivity w), Returned) ∧
     trace (exec (onProtocolMessage msg) w) =
       trace (exec onActivity w) ++ [OnChannelMessage msg] ∧
     noEmit w (exec (onProtocolMessage msg) w) ∧
     isFinished (exec (onProtocolMessage msg) w) = isFinished w).
Proof.
  intros Ha.
  destruct (onActivity_returns w) as [w1 Hw1].
  destruct (onActivity_quiet w) as (Hq & Hn & Hfin & _).
  unfold exec in *. rewrite Hw1 in *. simpl in *.
  assert (Hgen : onProtocolMessage msg w =
                 match channel msg with
                 | None => finish "failed" (error msg) w1
                 | Some _ => (do_effect (OnChannelMessage msg) w1, Returned)
                 end).
  { unfold onProtocolMessage, seq. rewrite Hw1, Ha.
    destruct (channel msg); reflexivity. }
  split.
  - intros Hc. rewrite Hc in Hgen. rewrite Hgen.
    split; [reflexivity |]. split.
    + destruct (isFinished w1) eqn:E.
      * rewrite finish_finished by auto. exact Hn.
      * rewrite finish_first by auto.
        eapply added_more; [exact Hn | reflexivity |].
        repeat constructor.
    + intros Hf. rewrite finish_first by congruence. auto.
  - intros c Hc. rewrite Hc in Hgen. rewrite Hgen.
    repeat split; auto.
    eapply added_more; [exact Hq | reflexivity |].
    repeat constructor.
Qed.

(** *** close *)

(** C3 (as amended).  [close] sends CLOSE exactly when the transport is
    connected, and then goes through [finish] with outcome "closed" and,
    as the error, the [closed] entry of the connection-error table. *)
Theorem close_sends_iff_connected (w : World) :
  close CE w =
    finish "closed" (ce_closed CE) (sentIfConnected closeMessage w) ∧
  (∃ l, trace (exec (close CE) w) = trace w ++ l ∧
        (Send closeMessage ∈ l ↔ isConnected w = true)) ∧
  (isFinished w = false →
     isFinished (exec (close CE) w) = true ∧
     trace (exec (close CE) w) =
       trace (sentIfConnected closeMessage w) ++
         [ClearTimeout (idleTimer w);
          Emit "closed" [PErr (ce_closed CE)]; Off]).
Proof.
  assert (Hgen : close CE w =
            finish "closed" (ce_closed CE) (sentIfConnected closeMessage w)).
  { unfold close, seq, requestClose, send, lift, ret, sentIfConnected.
    destruct (isConnected w); reflexivity. }
  assert (Hfin : isFinished (sentIfConnected closeMessage w) = isFinished w)
    by apply sentIfConnected_quiet.
  assert (Hidle : idleTimer (sentIfConnected closeMessage w) = idleTimer w).
  { unfold sentIfConnected. destruct (isConnected w); reflexivity. }
  split; [exact Hgen |]. split.
  - unfold exec. rewrite Hgen.
    destruct (isFinished w) eqn:E.
    + rewrite finish_finished by congruence. simpl.
      unfold sentIfConnected. destruct (isConnected w); simpl.
      * exists [Send closeMessage]. split; auto.
        split; auto. intros _. apply list_elem_of_singleton. reflexivity.
      * exists []. rewrite app_nil_r. split; auto.
        split; [intros H; inversion H | discriminate].
    + rewrite finish_first by congruence. simpl. rewrite Hidle.
      unfold sentIfConnected. destruct (isConnected w); simpl.
      * eexists. rewrite <- app_assoc. split; [reflexivity |].
        split; auto. intros _. simpl. apply list_elem_of_here.
      * eexists. split; [reflexivity |].
        split; [| discriminate].
        rewrite !elem_of_cons. intros [H | [H | [H | H]]];
          try discriminate. inversion H.
  - intros Hf. unfold exec. rewrite Hgen.
    rewrite finish_first by congruence. simpl. rewrite Hidle. auto.
Qed.


(** *** On-connect handling *)

(** C4.  [onConnect] marks the transport connected; then, without
    [connectionDetails] it throws; with a positive [maxIdleInterval] D
    (and a request timeout that is not negative) it sets
    [maxIdleInterval] to D plus the realtime-request timeout and records
    activity, after which an idle timer is held; with [maxIdleInterval]
    zero or absent it changes nothing else, so an unset [maxIdleInterval]
    stays unset and no timer is armed. *)
Theorem onConnect_handling (msg : ProtocolMessage) (w : World) :
  (connectionDetails msg = None →
     ∃ m, onConnect msg w = (set_isConnected true w, Threw m)) ∧
  (∀ d D, connectionDetails msg = Some d →
     cd_maxIdleInterval d = Some D → 0 < D →
     0 <= realtimeRequestTimeout w →
     let M := realtimeRequestTimeout w in
     let w' := exec (onConnect msg) w in
     onConnect msg w =
       (stamped (D + M)
          (set_maxIdleInterval (Some (D + M)) (set_isConnected true w)),
        Returned) ∧
     isConnected w' = true ∧
     maxIdleInterval w' = Some (D + M) ∧
     lastActivity w' = Some (now w) ∧
     cmLastActivity w' = Some (now w) ∧
     is_Some (idleTimer w') ∧
     (idleTimer w = None →
        idleTimer w' = Some (nextHandle w) ∧
        timers w' = <[nextHandle w := D + M + 100]> (timers w) ∧
        trace w' = trace w ++ [SetTimeout (nextHandle w) (D + M + 100)])) ∧
  (∀ d, connectionDetails msg = Some d →
     cd_maxIdleInterval d = None ∨ cd_maxIdleInterval d = Some 0 →
     let w' := exec (onConnect msg) w in
     onConnect msg w = (set_isConnected true w, Returned) ∧
     isConnected w' = true ∧
     maxIdleInterval w' = maxIdleInterval w ∧
     idleTimer w' = idleTimer w ∧
     timers w' = timers w ∧
     trace w' = trace w).
Proof.
  split; [| split].
  - intros Hd. unfold onConnect, seq, lift, throw. rewrite Hd. eauto.
  - intros d D Hd HD Hpos Hrrt M w'.
    assert (E : onConnect msg w =
              (stamped (D + M)
                 (set_maxIdleInterval (Some (D + M)) (set_isConnected true w)),
               Returned)).
    { unfold onConnect, seq, lift. rewrite Hd, HD. simpl.
      replace (D =? 0) with false by (symmetry; apply Z.eqb_neq; lia).
      simpl. unfold seq. fold M.
      apply onActivity_active; [reflexivity | lia]. }
    subst w'. unfold exec. rewrite E. simpl.
    unfold stamped. simpl.
    destruct (idleTimer w) eqn:Hi; simpl;
      repeat split; eauto; discriminate.
  - intros d Hd Hz w'. subst w'. unfold exec.
    assert (E : onConnect msg w = (set_isConnected true w, Returned)).
    { unfold onConnect, seq, lift. rewrite Hd.
      destruct Hz as [-> | ->]; reflexivity. }
    rewrite E. simpl. repeat split; auto.
Qed.

(** *** The idle monitor *)

Lemma finish_timersOwned event err w :
  timersOwned w → timersOwned (exec (finish event err) w).
Proof.
  intros Ho. unfold exec. destruct (isFinished w) eqn:E.
  - rewrite finish_finished by auto. exact Ho.
  - rewrite finish_first by auto. simpl. left. unfold finished. simpl.
    destruct Ho as [He | (h & d & Hi & Ht)].
    + rewrite He. destruct (idleTimer w); [apply delete_empty | reflexivity].
    + rewrite Hi, Ht. apply delete_singleton_eq.
Qed.

Lemma sentIfConnected_timersOwned m w :
  timersOwned w → timersOwned (sentIfConnected m w).
Proof. unfold sentIfConnected. destruct (isConnected w); auto. Qed.

Lemma setIdleTimer_timersOwned d w :
  timersOwned w → timersOwned (exec (setIdleTimer d) w).
Proof.
  intros Ho. unfold exec, setIdleTimer.
  destruct (idleTimer w) eqn:Hi; simpl; auto.
  right. exists (nextHandle w), d. split; auto.
  destruct Ho as [He | (h & d' & Hh & _)]; [| congruence].
  fields. rewrite He. reflexivity.
Qed.

Lemma onActivity_timersOwned w :
  timersOwned w → timersOwned (exec onActivity w).
Proof.
  intros Ho. unfold exec, onActivity.
  destruct (truthyZ (maxIdleInterval w)); simpl; auto.
  unfold seq, lift.
  apply (setIdleTimer_timersOwned _ (set_lastActivity (Some (now w)) w)).
  exact Ho.
Qed.

Lemma local_ops_timersOwned w :
  timersOwned w →
  timersOwned (exec (close CE) w) ∧
  (∀ err, timersOwned (exec (disconnect CE err) w)) ∧
  (∀ err, timersOwned (exec (fail CE err) w)).
Proof.
  intros Ho.
  assert (G : ∀ m event err,
            timersOwned (exec (finish event err) (sentIfConnected m w))).
  { intros. apply finish_timersOwned, sentIfConnected_timersOwned, Ho. }
  repeat split; intros;
    unfold close, disconnect, fail, exec, seq, requestClose,
      requestDisconnect, send, lift, ret;
    [ specialize (G closeMessage) | specialize (G disconnectMessage)
    | specialize (G disconnectMessage) ];
    unfold sentIfConnected, exec in G;
    destruct (isConnected w); apply G.
Qed.

Lemma onIdleTimerExpire_timersOwned w :
  timers w = ∅ → timersOwned (exec (onIdleTimerExpire CE) w).
Proof.
  intros He. unfold exec, onIdleTimerExpire.
  destruct (negb (truthyZ (lastActivity w)) || negb (truthyZ (maxIdleInterval w)));
    simpl; [left; exact He |].
  unfold seq, lift.
  assert (Ho : timersOwned (set_idleTimer None w)) by (left; exact He).
  set (w1 := set_idleTimer None w) in *. clearbody w1.
  destruct (_ <=? 0).
  - destruct (local_ops_timersOwned w1 Ho) as (_ & Hd & _). apply Hd.
  - apply (setIdleTimer_timersOwned _ w1 Ho).
Qed.


(** *** Combinators for invariants *)

Lemma preserves_ret P : preserves P ret.
Proof. intros w H. exact H. Qed.

Lemma preserves_throw P m : preserves P (throw m).
Proof. intros w H. exact H. Qed.

Lemma preserves_seq P a b :
  preserves P a → preserves P b → preserves P (a >> b).
Proof.
  intros Ha Hb w H. specialize (Ha w H). unfold exec, seq in *.
  destruct (a w) as [w1 [|m]]; simpl in *; [apply Hb, Ha | exact Ha].
Qed.

Lemma preserves_lift P f :
  (∀ w, P w → P (f w)) → preserves P (lift f).
Proof. intros Hf w H. apply Hf, H. Qed.

Lemma preserves_effect_timersOwned e : preserves timersOwned (lift (do_effect e)).
Proof. apply preserves_lift. intros w H. exact H. Qed.

Lemma preserves_onActivity : preserves timersOwned onActivity.
Proof. intros w. apply onActivity_timersOwned. Qed.

Lemma preserves_finish_timersOwned event err :
  preserves timersOwned (finish event err).
Proof. intros w. apply finish_timersOwned. Qed.

Lemma preserves_onConnect msg : preserves timersOwned (onConnect msg).
Proof.
  unfold onConnect. apply preserves_seq.
  - apply preserves_lift. intros w H. exact H.
  - destruct (connectionDetails msg) as [d|]; [| apply preserves_throw].
    cbv zeta. destruct (truthyZ (cd_maxIdleInterval d)).
    + apply preserves_seq; [| apply preserves_onActivity].
      intros w H. exact H.
    + apply preserves_ret.
Qed.

Lemma preserves_onProtocolMessage msg :
  preserves timersOwned (onProtocolMessage msg).
Proof.
  unfold onProtocolMessage. apply preserves_seq.
  - apply preserves_onActivity.
  - destruct (action msg);
      unfold emit, onClose, onDisconnect, onFatalError;
      try apply preserves_effect_timersOwned;
      try apply preserves_finish_timersOwned.
    + apply preserves_seq;
        [apply preserves_onConnect | apply preserves_effect_timersOwned].
    + destruct (channel msg);
        [apply preserves_effect_timersOwned
        | apply preserves_finish_timersOwned].
    + destruct (connectionId msg); apply preserves_effect_timersOwned.
Qed.

Lemma run_timersOwned o : preserves timersOwned (run CE o).
Proof.
  destruct o; simpl.
  - apply preserves_ret.
  - intros w H. apply local_ops_timersOwned, H.
  - intros w H. destruct (local_ops_timersOwned w H) as (_ & Hd & _). apply Hd.
  - intros w H. destruct (local_ops_timersOwned w H) as (_ & _ & Hl). apply Hl.
  - apply preserves_finish_timersOwned.
  - apply preserves_effect_timersOwned.
  - unfold dispose. apply preserves_seq.
    + apply preserves_lift. intros w H. exact H.
    + apply preserves_effect_timersOwned.
  - apply preserves_onProtocolMessage.
  - intros w H. unfold exec.
    destruct (timers w !! h) as [d|] eqn:Hh; [| exact H].
    apply onIdleTimerExpire_timersOwned. fields.
    destruct H as [He | (h' & d' & _ & Ht)].
    + rewrite He. apply delete_empty.
    + rewrite Ht in Hh |- *.
      apply lookup_singleton_Some in Hh as [-> _].
      apply delete_singleton_eq.
  - apply preserves_lift. intros w H. exact H.
Qed.

Lemma runs_preserves P os :
  (∀ o, o ∈ os → preserves P (run CE o)) →
  ∀ w, P w → P (runs CE os w).
Proof.
  unfold preserves, runs.
  induction os as [|o os IH]; intros Hall w H; [exact H |].
  simpl. apply IH.
  - intros o' Ho'. apply Hall. right. exact Ho'.
  - apply (Hall o); [left | exact H].
Qed.

Lemma timersOwned_size w : timersOwned w → (size (timers w) ≤ 1)%nat.
Proof.
  intros [He | (h & d & _ & Ht)].
  - rewrite He, map_size_empty. lia.
  - rewrite Ht, map_size_singleton. lia.
Qed.


(** C5.  [onActivity] does nothing while [maxIdleInterval] is unset;
    otherwise it stamps the current time on the transport and on the
    connection manager and arms a timer for [maxIdleInterval + 100],
    unless a timer is held, in which case none is armed.  At most one
    timer of a transport is ever pending.  When the timer runs out and at
    least [maxIdleInterval] has passed since the last activity, the
    transport calls [disconnect] with the "no activity" error (code 80003,
    status 408); otherwise it arms a timer for the remaining time plus
    100. *)
Theorem idle_monitor_steps (w : World) :
  (truthyZ (maxIdleInterval w) = false → onActivity w = (w, Returned)) ∧
  (∀ m, maxIdleInterval w = Some m → m ≠ 0 →
     let w' := exec onActivity w in
     onActivity w = (stamped m w, Returned) ∧
     lastActivity w' = Some (now w) ∧
     cmLastActivity w' = Some (now w) ∧
     (idleTimer w = None →
        idleTimer w' = Some (nextHandle w) ∧
        timers w' = <[nextHandle w := m + 100]> (timers w) ∧
        trace w' = trace w ++ [SetTimeout (nextHandle w) (m + 100)]) ∧
     (is_Some (idleTimer w) →
        idleTimer w' = idleTimer w ∧ timers w' = timers w ∧
        trace w' = trace w)) ∧
  (∀ os, timersOwned w →
     timersOwned (runs CE os w) ∧ (size (timers (runs CE os w)) ≤ 1)%nat) ∧
  (∀ m l, maxIdleInterval w = Some m → m ≠ 0 →
     lastActivity w = Some l → l ≠ 0 →
     let sinceLast := now w - l in
     (m <= sinceLast →
        onIdleTimerExpire CE w =
          disconnect CE
            (Some (EInfo (mkErrorInfo
                            ("No activity seen from realtime in " +:+
                             pretty sinceLast +:+
                             "ms; assuming connection has dropped")
                            (Some 80003) (Some 408))))
            (set_idleTimer None w)) ∧
     (sinceLast < m →
        onIdleTimerExpire CE w =
          (armed (m - sinceLast + 100) (set_idleTimer None w), Returned))).
Proof.
  split; [apply onActivity_inactive |]. split; [| split].
  - intros m Hm Hz w'. subst w'. unfold exec.
    rewrite (onActivity_active m) by auto. unfold stamped.
    split; [reflexivity |].
    destruct (idleTimer w) eqn:Hi; fields.
    + split; [reflexivity |]. split; [reflexivity |].
      split; [discriminate |]. intros _. repeat split; auto.
    + split; [reflexivity |]. split; [reflexivity |].
      split; [intros _; repeat split; reflexivity |].
      intros [h Hh]. discriminate.
  - intros os Ho.
    assert (H : timersOwned (runs CE os w)).
    { apply runs_preserves; auto. intros o _. apply run_timersOwned. }
    split; [exact H | apply timersOwned_size, H].
  - intros m l Hm Hz Hl Hlz sinceLast.
    assert (Hgo : onIdleTimerExpire CE w =
              (if m - sinceLast <=? 0
               then disconnect CE (Some (idleError sinceLast))
                      (set_idleTimer None w)
               else setIdleTimer (m - sinceLast + 100) (set_idleTimer None w))).
    { unfold onIdleTimerExpire. rewrite Hm, Hl. simpl.
      apply Z.eqb_neq in Hz, Hlz. rewrite Hz, Hlz. simpl.
      unfold seq, lift. fields. rewrite Hm, Hl. reflexivity. }
    split; intros Hcmp; rewrite Hgo.
    + replace (m - sinceLast <=? 0) with true
        by (symmetry; apply Z.leb_le; lia).
      reflexivity.
    + replace (m - sinceLast <=? 0) with false
        by (symmetry; apply Z.leb_gt; lia).
      apply setIdleTimer_free. reflexivity.
Qed.

(** *** The timer callback finds its fields set *)

Lemma ready_frame f :
  (∀ w, timers (f w) = timers w ∧ idleTimer (f w) = idleTimer w ∧
        now (f w) = now w ∧
        realtimeRequestTimeout (f w) = realtimeRequestTimeout w ∧
        maxIdleInterval (f w) = maxIdleInterval w ∧
        lastActivity (f w) = lastActivity w) →
  preserves monitorReady (lift f).
Proof.
  intros Hf w (Ho & Hn & Hr & Hp). unfold exec, lift. simpl.
  destruct (Hf w) as (Et & Ei & En & Er & Em & El).
  unfold monitorReady, timersOwned. rewrite Et, Ei, En, Er, Em, El.
  auto.
Qed.

Lemma ready_effect e : preserves monitorReady (lift (do_effect e)).
Proof. apply ready_frame. intros w. repeat split; reflexivity. Qed.

Lemma ready_finish event err : preserves monitorReady (finish event err).
Proof.
  intros w H. assert (Ho := finish_timersOwned event err w (proj1 H)).
  unfold exec in *. destruct (isFinished w) eqn:E.
  - rewrite finish_finished by auto. exact H.
  - rewrite finish_first in * by auto. cbn [fst] in *.
    destruct H as (Hw & Hn & Hr & Hp).
    split; [exact Ho |]. split; [exact Hn |]. split; [exact Hr |].
    intros Hne. exfalso. apply Hne. unfold finished. fields.
    destruct Hw as [He | (h & d & Hi & Ht)].
    + rewrite He. destruct (idleTimer w); [apply delete_empty | reflexivity].
    + rewrite Hi, Ht. apply delete_singleton_eq.
Qed.

Lemma ready_setIdleTimer d w :
  monitorReady w →
  truthyZ (maxIdleInterval w) = true → truthyZ (lastActivity w) = true →
  monitorReady (exec (setIdleTimer d) w).
Proof.
  intros H Hm Hl. assert (Ho := setIdleTimer_timersOwned d w (proj1 H)).
  unfold exec in *. destruct (idleTimer w) eqn:Hi.
  - rewrite setIdleTimer_held by eauto. exact H.
  - rewrite setIdleTimer_free in * by auto. cbn [fst] in *.
    destruct H as (_ & Hn & Hr & _).
    split; [exact Ho |]. split; [exact Hn |]. split; [exact Hr |].
    intros _. split; [exact Hm | exact Hl].
Qed.

Lemma ready_onActivity : preserves monitorReady onActivity.
Proof.
  intros w H. unfold exec, onActivity.
  destruct (truthyZ (maxIdleInterval w)) eqn:Hm; simpl; [| exact H].
  unfold seq, lift.
  apply (ready_setIdleTimer _ (set_lastActivity (Some (now w)) w)).
  - destruct H as (Ho & Hn & Hr & Hp). repeat split; auto.
    simpl. apply negb_true_iff, Z.eqb_neq. exact Hn.
  - exact Hm.
  - destruct H as (_ & Hn & _). simpl.
    apply negb_true_iff, Z.eqb_neq. exact Hn.
Qed.

Lemma ready_sendIfConnected m :
  preserves monitorReady (λ w, if isConnected w then send m w else ret w).
Proof.
  intros w H. unfold exec. destruct (isConnected w); [| exact H].
  apply (ready_effect (Send m) w H).
Qed.

Lemma ready_onConnect msg :
  saneOp (Receive msg) → preserves monitorReady (onConnect msg).
Proof.
  intros Hs. unfold onConnect. apply preserves_seq.
  - apply ready_frame. intros w. repeat split; reflexivity.
  - destruct (connectionDetails msg) as [d|] eqn:Hd;
      [| apply preserves_throw].
    cbv zeta. destruct (truthyZ (cd_maxIdleInterval d)) eqn:HD;
      [| apply preserves_ret].
    apply truthyZ_Some in HD as (D & HD & Hz).
    assert (0 <= D) by (apply (Hs d D); auto).
    intros w (Ho & Hn & Hr & Hp). unfold exec, seq, lift.
    apply ready_onActivity. rewrite HD. simpl.
    split; [exact Ho |]. split; [exact Hn |]. split; [exact Hr |].
    fields. intros Hne. destruct (Hp Hne) as [_ Hl].
    split; [| exact Hl]. simpl. apply negb_true_iff, Z.eqb_neq. lia.
Qed.

Lemma ready_onProtocolMessage msg :
  saneOp (Receive msg) → preserves monitorReady (onProtocolMessage msg).
Proof.
  intros Hs. unfold onProtocolMessage. apply preserves_seq.
  - apply ready_onActivity.
  - destruct (action msg);
      unfold emit, onClose, onDisconnect, onFatalError;
      try apply ready_effect; try apply ready_finish.
    + apply preserves_seq; [apply ready_onConnect, Hs | apply ready_effect].
    + destruct (channel msg); [apply ready_effect | apply ready_finish].
    + destruct (connectionId msg); apply ready_effect.
Qed.

Lemma ready_onIdleTimerExpire w :
  monitorReady w → timers w = ∅ →
  monitorReady (exec (onIdleTimerExpire CE) w).
Proof.
  intros H He. unfold exec, onIdleTimerExpire.
  destruct (truthyZ (lastActivity w)) eqn:Hl; [| exact H].
  destruct (truthyZ (maxIdleInterval w)) eqn:Hm; [| exact H].
  simpl. unfold seq, lift.
  assert (H1 : monitorReady (set_idleTimer None w)).
  { destruct H as (_ & Hn & Hr & Hp).
    split; [left; exact He |]. repeat split; auto. }
  assert (Hl1 : truthyZ (lastActivity (set_idleTimer None w)) = true)
    by exact Hl.
  assert (Hm1 : truthyZ (maxIdleInterval (set_idleTimer None w)) = true)
    by exact Hm.
  set (w1 := set_idleTimer None w) in *. clearbody w1.
  destruct (_ <=? 0).
  - apply (preserves_seq monitorReady
             (λ w, if isConnected w then requestDisconnect w else ret w)
             (finish "disconnected" _)); auto.
    + apply ready_sendIfConnected.
    + apply ready_finish.
  - apply ready_setIdleTimer; auto.
Qed.

Lemma run_ready o : saneOp o → preserves monitorReady (run CE o).
Proof.
  intros Hs. destruct o; simpl.
  - apply preserves_ret.
  - apply preserves_seq; [apply ready_sendIfConnected | apply ready_finish].
  - apply preserves_seq; [apply ready_sendIfConnected | apply ready_finish].
  - apply preserves_seq; [apply ready_sendIfConnected | apply ready_finish].
  - apply ready_finish.
  - apply ready_effect.
  - unfold dispose. apply preserves_seq.
    + apply ready_frame. intros w. repeat split; reflexivity.
    + apply ready_effect.
  - apply ready_onProtocolMessage, Hs.
  - intros w H. unfold exec.
    destruct (timers w !! h) as [d|] eqn:Hh; [| exact H].
    assert (He : timers (expire h w) = ∅).
    { fields. destruct H as ([He | (h' & d' & _ & Ht)] & _).
      - rewrite He. apply delete_empty.
      - rewrite Ht in Hh |- *.
        apply lookup_singleton_Some in Hh as [-> _].
        apply delete_singleton_eq. }
    apply ready_onIdleTimerExpire; [| exact He].
    destruct H as (_ & Hn & Hr & _).
    split; [left; exact He |].
    repeat split; auto; intros Hne; destruct (Hne He).
  - intros w (Ho & _ & Hr & Hp). unfold exec, lift. cbn [fst].
    cbn [saneOp] in Hs. split; [exact Ho |]. split; [exact Hs |].
    split; [exact Hr | exact Hp].
Qed.

(** On every run of a transport with a well-behaved peer and clock, the
    callback of a pending timer finds [lastActivity] and [maxIdleInterval]
    set, so it does not throw. *)
Lemma expiry_finds_fields_set rrt clock os h d :
  0 <= rrt → clock ≠ 0 → Forall saneOp os →
  let w := runs CE os (init rrt clock) in
  timers w !! h = Some d →
  truthyZ (maxIdleInterval w) = true ∧ truthyZ (lastActivity w) = true ∧
  ∃ w', run CE (TimerFires h) w = (w', Returned).
Proof.
  intros Hr Hc Hall w Hh.
  assert (H : monitorReady w).
  { apply runs_preserves.
    - intros o Ho. apply run_ready.
      rewrite Forall_forall in Hall. apply Hall, Ho.
    - split; [left; reflexivity |].
      repeat split; auto; intros Hne; destruct (Hne eq_refl). }
  destruct H as (Ho & Hn & _ & Hp).
  assert (Hne : timers w ≠ ∅).
  { intros He. rewrite He, lookup_empty in Hh. discriminate. }
  destruct (Hp Hne) as [Hm Hl]. split; [exact Hm |]. split; [exact Hl |].
  simpl. rewrite Hh. unfold onIdleTimerExpire.
  change (lastActivity (expire h w)) with (lastActivity w).
  change (maxIdleInterval (expire h w)) with (maxIdleInterval w).
  rewrite Hm, Hl. simpl. unfold seq, lift.
  destruct (_ <=? 0).
  - unfold disconnect, seq, requestDisconnect, send, lift, ret.
    match goal with
    | |- ∃ w', match ?c with _ => _ end = _ => destruct c as [w2 [|m]] eqn:E
    end.
    + unfold finish. destruct (isFinished w2); eauto.
    + destruct (isConnected _); discriminate E.
  - unfold setIdleTimer. simpl. eauto.
Qed.

(** *** Disposed implies finished *)

Lemma preserves_flags_kept f :
  (∀ w, isFinished (f w) = isFinished w ∧ isDisposed (f w) = isDisposed w) →
  preserves disposedImpliesFinished (lift f).
Proof.
  intros Hf w H. unfold exec, lift, disposedImpliesFinished in *. simpl.
  destruct (Hf w) as [-> ->]. exact H.
Qed.

Lemma preserves_effect_flags e :
  preserves disposedImpliesFinished (lift (do_effect e)).
Proof. apply preserves_flags_kept. intros w. split; reflexivity. Qed.

Lemma preserves_finish_flags event err :
  preserves disposedImpliesFinished (finish event err).
Proof.
  intros w H. unfold exec. destruct (isFinished w) eqn:E.
  - rewrite finish_finished by auto. exact H.
  - rewrite finish_first by auto. intros _. reflexivity.
Qed.

Lemma preserves_setIdleTimer_flags d :
  preserves disposedImpliesFinished (setIdleTimer d).
Proof.
  intros w H. unfold exec, setIdleTimer.
  destruct (idleTimer w); exact H.
Qed.

Lemma preserves_onActivity_flags :
  preserves disposedImpliesFinished onActivity.
Proof.
  intros w H. unfold disposedImpliesFinished in *.
  destruct (onActivity_quiet w) as (_ & _ & -> & _ & -> & _). exact H.
Qed.

Lemma preserves_sendIfConnected_flags m :
  preserves disposedImpliesFinished
    (λ w, if isConnected w then send m w else ret w).
Proof.
  intros w H. unfold exec. destruct (isConnected w); exact H.
Qed.

Lemma preserves_onIdleTimerExpire_flags :
  preserves disposedImpliesFinished (onIdleTimerExpire CE).
Proof.
  intros w H. unfold exec, onIdleTimerExpire.
  destruct (negb (truthyZ (lastActivity w)) || negb (truthyZ (maxIdleInterval w)));
    [exact H |].
  unfold seq, lift.
  assert (H1 : disposedImpliesFinished (set_idleTimer None w)) by exact H.
  set (w1 := set_idleTimer None w) in *. clearbody w1.
  destruct (_ <=? 0).
  - apply (preserves_seq disposedImpliesFinished
             (λ w, if isConnected w then requestDisconnect w else ret w)
             (finish "disconnected" _)); auto.
    + apply preserves_sendIfConnected_flags.
    + apply preserves_finish_flags.
  - apply (preserves_setIdleTimer_flags _ w1 H1).
Qed.

Lemma preserves_onProtocolMessage_flags msg :
  preserves disposedImpliesFinished (onProtocolMessage msg).
Proof.
  unfold onProtocolMessage. apply preserves_seq.
  - apply preserves_onActivity_flags.
  - destruct (action msg);
      unfold emit, onClose, onDisconnect, onFatalError;
      try apply preserves_effect_flags;
      try apply preserves_finish_flags.
    + apply preserves_seq; [| apply preserves_effect_flags].
      unfold onConnect. apply preserves_seq.
      * apply preserves_flags_kept. intros w. split; reflexivity.
      * destruct (connectionDetails msg) as [d|]; [| apply preserves_throw].
        cbv zeta. destruct (truthyZ (cd_maxIdleInterval d)).
        -- apply preserves_seq; [| apply preserves_onActivity_flags].
           intros w H. exact H.
        -- apply preserves_ret.
    + destruct (channel msg);
        [apply preserves_effect_flags | apply preserves_finish_flags].
    + destruct (connectionId msg); apply preserves_effect_flags.
Qed.

Lemma run_flags o :
  notDispose o → preserves disposedImpliesFinished (run CE o).
Proof.
  intros Hnd. destruct o; simpl.
  - apply preserves_ret.
  - apply preserves_seq;
      [apply preserves_sendIfConnected_flags | apply preserves_finish_flags].
  - apply preserves_seq;
      [apply preserves_sendIfConnected_flags | apply preserves_finish_flags].
  - apply preserves_seq;
      [apply preserves_sendIfConnected_flags | apply preserves_finish_flags].
  - apply preserves_finish_flags.
  - apply preserves_effect_flags.
  - exfalso. apply Hnd. reflexivity.
  - apply preserves_onProtocolMessage_flags.
  - intros w H. unfold exec.
    destruct (timers w !! h); [| exact H].
    apply preserves_onIdleTimerExpire_flags. exact H.
  - apply preserves_flags_kept. intros w. split; reflexivity.
Qed.

(** C6 (as amended).  "Disposed implies finished" is kept by every
    sequence of [connect], [close], [disconnect], [fail], [finish],
    [ping], inbound messages, timer expiries and clock ticks, that is by
    every operation but a direct call of [dispose]. *)
Theorem disposed_implies_finished_kept (os : list op) (w : World) :
  Forall notDispose os →
  disposedImpliesFinished w →
  disposedImpliesFinished (runs CE os w).
Proof.
  intros Hall H. apply runs_preserves; auto.
  intros o Ho. apply run_flags.
  rewrite Forall_forall in Hall. apply Hall, Ho.
Qed.

(** *** The shape of a step *)

Lemma added_trans P w w1 w2 : added P w w1 → added P w1 w2 → added P w w2.
Proof.
  intros H1 (l & Hl & Hall). eapply added_more; eauto.
Qed.

Lemma added_weaken (P Q : effect → Prop) w w' :
  (∀ e, P e → Q e) → added P w w' → added Q w w'.
Proof.
  intros HPQ (l & Hl & Hall). exists l. split; [exact Hl |].
  eapply Forall_impl; eauto.
Qed.

Lemma quietStep_refl w : quietStep w w.
Proof. repeat split. apply added_refl. Qed.

Lemma quietStep_trans w w1 w2 :
  quietStep w w1 → quietStep w1 w2 → quietStep w w2.
Proof.
  intros (F1 & D1 & A1) (F2 & D2 & A2). split; [congruence |].
  split; [congruence |]. eapply added_trans; eauto.
Qed.

Lemma quietStep_effect e w : benign e → quietStep w (do_effect e w).
Proof.
  intros He. repeat split. exists [e]. split; [reflexivity |].
  constructor; [exact He | constructor].
Qed.

Lemma quietStep_frame w w' :
  isFinished w' = isFinished w → isDisposed w' = isDisposed w →
  trace w' = trace w → quietStep w w'.
Proof.
  intros HF HD HT. split; [exact HF |]. split; [exact HD |].
  exists []. rewrite app_nil_r. auto.
Qed.

Lemma quietStep_setIdleTimer d w : quietStep w (exec (setIdleTimer d) w).
Proof.
  unfold exec, setIdleTimer. destruct (idleTimer w); simpl.
  - apply quietStep_refl.
  - repeat split. eexists. split; [reflexivity |].
    repeat constructor.
Qed.

Lemma quietStep_onActivity w : quietStep w (exec onActivity w).
Proof.
  unfold exec, onActivity.
  destruct (truthyZ (maxIdleInterval w)); simpl; [| apply quietStep_refl].
  unfold seq, lift.
  eapply quietStep_trans;
    [| apply (quietStep_setIdleTimer _ (set_lastActivity (Some (now w)) w))].
  apply quietStep_frame; reflexivity.
Qed.

Lemma quietStep_sentIfConnected m w : quietStep w (sentIfConnected m w).
Proof.
  unfold sentIfConnected. destruct (isConnected w).
  - apply quietStep_effect. split; reflexivity.
  - apply quietStep_refl.
Qed.

Lemma quietStep_onConnect msg w : quietStep w (exec (onConnect msg) w).
Proof.
  unfold exec, onConnect, seq, lift.
  destruct (connectionDetails msg) as [d|]; simpl;
    [| apply quietStep_frame; reflexivity].
  destruct (truthyZ (cd_maxIdleInterval d)); simpl;
    [| apply quietStep_frame; reflexivity].
  eapply quietStep_trans; [| apply quietStep_onActivity].
  apply quietStep_frame; reflexivity.
Qed.

Lemma local_ops_shape w :
  close CE w =
    finish "closed" (ce_closed CE) (sentIfConnected closeMessage w) ∧
  (∀ err, disconnect CE err w =
            finish "disconnected" (orElse err (ce_disconnected CE))
              (sentIfConnected disconnectMessage w)) ∧
  (∀ err, fail CE err w =
            finish "failed" (orElse err (ce_failed CE))
              (sentIfConnected disconnectMessage w)).
Proof.
  unfold close, disconnect, fail, seq, requestClose, requestDisconnect,
    send, lift, ret, sentIfConnected.
  repeat split; intros; destruct (isConnected w); reflexivity.
Qed.

(** Every operation but a direct [dispose] is a quiet step, or a quiet
    step followed by one call of [finish]. *)
Lemma op_shape o w :
  o ≠ Dispose →
  quietStep w (exec (run CE o) w) ∨
  ∃ w1 event err,
    quietStep w w1 ∧ exec (run CE o) w = exec (finish event err) w1 ∧
    (finishesWithOutcome o → isOutcomeName event = true).
Proof.
  intros Hnd.
  destruct (local_ops_shape w) as (Hc & Hd & Hl).
  destruct o; simpl.
  - left. apply quietStep_refl.
  - right. exists (sentIfConnected closeMessage w), "closed", (ce_closed CE).
    unfold exec. rewrite Hc.
    split; [apply quietStep_sentIfConnected | auto].
  - right. eexists (sentIfConnected disconnectMessage w), "disconnected", _.
    unfold exec. rewrite Hd.
    split; [apply quietStep_sentIfConnected | auto].
  - right. eexists (sentIfConnected disconnectMessage w), "failed", _.
    unfold exec. rewrite Hl.
    split; [apply quietStep_sentIfConnected | auto].
  - right. exists w, event, err.
    split; [apply quietStep_refl | auto].
  - left. apply quietStep_effect. split; reflexivity.
  - destruct (Hnd eq_refl).
  - assert (Ha := quietStep_onActivity w).
    destruct (onActivity_returns w) as [w1 Hw1].
    unfold exec in *. unfold onProtocolMessage, seq. rewrite Hw1 in *.
    cbn [fst] in Ha.
    assert (Hq : ∀ e, benign e → quietStep w (do_effect e w1)).
    { intros e He. eapply quietStep_trans; [exact Ha |].
      apply quietStep_effect, He. }
    assert (Hf : ∀ event err, isOutcomeName event = true →
              ∃ w2 event' err',
                quietStep w w2 ∧
                fst (finish event err w1) = fst (finish event' err' w2) ∧
                (True → isOutcomeName event' = true)).
    { intros event err He. exists w1, event, err. auto. }
    destruct (action message);
      unfold emit, onClose, onDisconnect, onFatalError, lift;
      try (left; cbn [fst]; apply Hq; split; reflexivity);
      try (right; apply Hf; reflexivity).
    + left. assert (Hc1 := quietStep_onConnect message w1).
      unfold exec in Hc1.
      destruct (onConnect message w1) as [w2 [|m]]; cbn [fst] in *.
      * eapply quietStep_trans; [exact Ha |].
        eapply quietStep_trans; [exact Hc1 |].
        apply quietStep_effect. split; reflexivity.
      * eapply quietStep_trans; eauto.
    + destruct (channel message).
      * left. cbn [fst]. apply Hq. split; reflexivity.
      * right. apply Hf. reflexivity.
    + destruct (connectionId message);
        left; cbn [fst]; apply Hq; split; reflexivity.
  - unfold exec. destruct (timers w !! h) as [d|]; [| left; apply quietStep_refl].
    unfold onIdleTimerExpire.
    change (lastActivity (expire h w)) with (lastActivity w).
    change (maxIdleInterval (expire h w)) with (maxIdleInterval w).
    destruct (negb (truthyZ (lastActivity w)) || negb (truthyZ (maxIdleInterval w))).
    + left. apply quietStep_frame; reflexivity.
    + unfold seq, lift.
      assert (H1 : quietStep w (set_idleTimer None (expire h w)))
        by (apply quietStep_frame; reflexivity).
      set (w1 := set_idleTimer None (expire h w)) in *. clearbody w1.
      destruct (_ <=? 0).
      * right. destruct (local_ops_shape w1) as (_ & Hd1 & _).
        rewrite Hd1.
        eexists (sentIfConnected disconnectMessage w1), "disconnected", _.
        split; [| split; [reflexivity | reflexivity]].
        eapply quietStep_trans; [exact H1 |].
        apply quietStep_sentIfConnected.
      * left. eapply quietStep_trans; [exact H1 |].
        apply (quietStep_setIdleTimer _ w1).
  - left. apply quietStep_frame; reflexivity.
Qed.

(** *** Flags and outcome events over whole runs *)

Lemma count_added p w w' :
  added (λ e, p e = false) w w' → countEffects p w' = countEffects p w.
Proof.
  intros (l & Hl & Hall). unfold countEffects. rewrite Hl, List.filter_app.
  rewrite List.length_app.
  assert (E : List.filter p l = []).
  { clear Hl. induction Hall as [| e l He _ IH]; simpl; [reflexivity |].
    rewrite He. exact IH. }
  rewrite E. simpl. lia.
Qed.

Lemma count_quiet p w w' :
  (∀ e, benign e → p e = false) → quietStep w w' →
  countEffects p w' = countEffects p w.
Proof.
  intros Hp (_ & _ & Ha). apply count_added.
  eapply added_weaken; eauto.
Qed.

Lemma count_finish p event err w :
  countEffects p (exec (finish event err) w) =
    if isFinished w then countEffects p w
    else (countEffects p w +
          List.length (List.filter p [ClearTimeout (idleTimer w);
                                      Emit event [PErr err]; Off]))%nat.
Proof.
  unfold exec. destruct (isFinished w) eqn:E.
  - rewrite finish_finished by auto. reflexivity.
  - rewrite finish_first by auto. unfold countEffects, finished. cbn [fst trace].
    rewrite List.filter_app, List.length_app. reflexivity.
Qed.

Lemma finish_flags event err w :
  isFinished (exec (finish event err) w) = true ∧
  isDisposed (exec (finish event err) w) =
    (if isFinished w then isDisposed w else true).
Proof.
  unfold exec. destruct (isFinished w) eqn:E.
  - rewrite finish_finished by auto. auto.
  - rewrite finish_first by auto. auto.
Qed.

Lemma dispose_or_not (o : op) : o = Dispose ∨ o ≠ Dispose.
Proof. destruct o; (left; reflexivity) || (right; discriminate). Qed.

Lemma run_flags_monotone o w :
  (isFinished w = true → isFinished (exec (run CE o) w) = true) ∧
  (isDisposed w = true → isDisposed (exec (run CE o) w) = true).
Proof.
  destruct (dispose_or_not o) as [-> | Hnd]; [split; auto |].
  destruct (op_shape o w Hnd) as [(F & D & _) | (w1 & ev & err & (F & D & _) & -> & _)].
  - rewrite F, D. auto.
  - destruct (finish_flags ev err w1) as [HF HD]. rewrite HF, HD, F, D.
    split; [auto |]. destruct (isFinished w); auto.
Qed.

(** X1.  Once [isFinished] is true it stays true, and once [isDisposed] is
    true it stays true, whatever is called or received afterwards. *)
Theorem flags_never_revert (os : list op) (w : World) :
  (isFinished w = true → isFinished (runs CE os w) = true) ∧
  (isDisposed w = true → isDisposed (runs CE os w) = true).
Proof.
  split; intros H.
  - apply (runs_preserves (λ w, isFinished w = true)); auto.
    intros o _ w' Hw'. apply run_flags_monotone, Hw'.
  - apply (runs_preserves (λ w, isDisposed w = true)); auto.
    intros o _ w' Hw'. apply run_flags_monotone, Hw'.
Qed.

Lemma benign_not_outcome e : benign e → isOutcome e = false.
Proof. intros [H _]. exact H. Qed.

Lemma benign_not_off e : benign e → isOff e = false.
Proof. intros [_ H]. exact H. Qed.

Lemma run_outcome_count o w :
  let w' := exec (run CE o) w in
  let n := countEffects isOutcome w in
  let n' := countEffects isOutcome w' in
  (isFinished w = true → n' = n) ∧
  (isFinished w = false → isFinished w' = false → n' = n) ∧
  (isFinished w = false → isFinished w' = true →
     (n' ≤ n + 1)%nat ∧ (finishesWithOutcome o → n' = (n + 1)%nat)).
Proof.
  cbv zeta.
  destruct (dispose_or_not o) as [-> | Hnd].
  { assert (E : countEffects isOutcome (exec (run CE Dispose) w) =
                countEffects isOutcome w).
    { apply count_added. exists [Off]. split; [reflexivity |].
      repeat constructor. }
    rewrite E. split; [auto |]. split; [auto |]. intros H1 H2.
    change (isFinished (exec (run CE Dispose) w)) with (isFinished w) in H2.
    congruence. }
  destruct (op_shape o w Hnd)
    as [Hq | (w1 & ev & err & Hq & -> & Hev)].
  - rewrite (count_quiet _ _ _ benign_not_outcome Hq).
    destruct Hq as (F & _). rewrite F.
    repeat split; auto; intros; congruence.
  - rewrite count_finish. rewrite (count_quiet _ _ _ benign_not_outcome Hq).
    destruct (finish_flags ev err w1) as [HF _]. rewrite HF.
    destruct Hq as (F & _). rewrite F.
    split; [intros ->; reflexivity |].
    split; [intros _ H; discriminate H |].
    intros -> _. cbn [List.filter isOutcome].
    destruct (isOutcomeName ev) eqn:En; simpl.
    + split; [lia | reflexivity].
    + split; [lia |]. intros Ho. specialize (Hev Ho). discriminate Hev.
Qed.

(** X2.  Over the whole life of a transport at most one outcome event
    ("closed", "disconnected" or "failed") is emitted, and none while it
    is not finished; when every direct call of [finish] names an outcome,
    a finished transport has emitted exactly one. *)
Theorem outcome_emitted_at_most_once (rrt clock : Z) (os : list op) :
  let w := runs CE os (init rrt clock) in
  (countEffects isOutcome w ≤ 1)%nat ∧
  (isFinished w = false → countEffects isOutcome w = 0%nat) ∧
  (Forall finishesWithOutcome os → isFinished w = true →
     countEffects isOutcome w = 1%nat).
Proof.
  cbv zeta.
  assert (H1 : (λ w, (countEffects isOutcome w ≤ 1)%nat ∧
                     (isFinished w = false → countEffects isOutcome w = 0%nat))
                 (runs CE os (init rrt clock))).
  { apply runs_preserves.
    - intros o _ w [Hle Hz].
      destruct (run_outcome_count o w) as (Ha & Hb & Hc).
      destruct (isFinished w) eqn:Ew.
      + rewrite (Ha eq_refl). split; [exact Hle |].
        destruct (run_flags_monotone o w) as [Hm _].
        rewrite (Hm Ew). discriminate.
      + destruct (isFinished (exec (run CE o) w)) eqn:Ew'.
        * destruct (Hc eq_refl eq_refl) as [Hn _].
          rewrite (Hz eq_refl) in Hn. split; [lia | discriminate].
        * rewrite (Hb eq_refl eq_refl), (Hz eq_refl). split; [lia | auto].
    - split; [unfold countEffects; simpl; lia | reflexivity]. }
  destruct H1 as [Hle Hz]. split; [exact Hle |]. split; [exact Hz |].
  intros Hall.
  apply (runs_preserves
           (λ w, (isFinished w = false → countEffects isOutcome w = 0%nat) ∧
                 (isFinished w = true → countEffects isOutcome w = 1%nat))).
  - intros o Ho w [Hw0 Hw1].
    rewrite Forall_forall in Hall. specialize (Hall o Ho).
    destruct (run_outcome_count o w) as (Ha & Hb & Hc).
    destruct (isFinished w) eqn:Ew.
    + rewrite (Ha eq_refl).
      destruct (run_flags_monotone o w) as [Hm _]. rewrite (Hm Ew).
      split; [discriminate | auto].
    + destruct (isFinished (exec (run CE o) w)) eqn:Ew'.
      * destruct (Hc eq_refl eq_refl) as [_ Hn].
        rewrite (Hn Hall), (Hw0 eq_refl). split; [discriminate | auto].
      * rewrite (Hb eq_refl eq_refl). split; [auto | discriminate].
  - split; [reflexivity | discriminate].
Qed.

Lemma run_off_count o w :
  o ≠ Dispose →
  countEffects isOff (exec (run CE o) w) =
    if isFinished w then countEffects isOff w
    else if isFinished (exec (run CE o) w)
         then S (countEffects isOff w) else countEffects isOff w.
Proof.
  intros Hnd.
  destruct (op_shape o w Hnd)
    as [Hq | (w1 & ev & err & Hq & -> & _)].
  - rewrite (count_quiet _ _ _ benign_not_off Hq).
    destruct Hq as (F & _). rewrite F. destruct (isFinished w); reflexivity.
  - rewrite count_finish, (count_quiet _ _ _ benign_not_off Hq).
    destruct (finish_flags ev err w1) as [HF _]. rewrite HF.
    destruct Hq as (F & _). rewrite F.
    destruct (isFinished w); [reflexivity |].
    cbn [List.filter isOff List.length]. lia.
Qed.

(** X3.  On a run without a direct call of [dispose], the listeners are
    detached exactly once when the transport finishes, and not
    before. *)
Theorem listeners_detached_once (rrt clock : Z) (os : list op) :
  Forall notDispose os →
  let w := runs CE os (init rrt clock) in
  countEffects isOff w = if isFinished w then 1%nat else 0%nat.
Proof.
  intros Hall. cbv zeta.
  apply (runs_preserves
           (λ w, countEffects isOff w = if isFinished w then 1%nat else 0%nat)).
  - intros o Ho w Hw.
    rewrite Forall_forall in Hall. specialize (Hall o Ho).
    rewrite (run_off_count o w Hall), Hw.
    destruct (run_flags_monotone o w) as [Hm _].
    destruct (isFinished w).
    + rewrite (Hm eq_refl). reflexivity.
    + destruct (isFinished (exec (run CE o) w)); reflexivity.
  - reflexivity.
Qed.

(** *** What inbound messages do *)

Lemma added_same (P : effect → Prop) w w' : trace w' = trace w → added P w w'.
Proof. intros H. exists []. rewrite app_nil_r. auto. Qed.

Lemma added_onActivity (P : effect → Prop) w :
  (∀ h d, P (SetTimeout h d)) → added P w (exec onActivity w).
Proof.
  intros HP. unfold exec, onActivity.
  destruct (truthyZ (maxIdleInterval w)); simpl; [| apply added_refl].
  unfold seq, lift, setIdleTimer. simpl.
  destruct (idleTimer w); simpl; [apply added_same; reflexivity |].
  eexists. split; [reflexivity |]. repeat constructor. apply HP.
Qed.

Lemma added_onConnect (P : effect → Prop) msg w :
  (∀ h d, P (SetTimeout h d)) → added P w (exec (onConnect msg) w).
Proof.
  intros HP. unfold exec, onConnect, seq, lift.
  destruct (connectionDetails msg) as [d|]; simpl;
    [| apply added_same; reflexivity].
  destruct (truthyZ (cd_maxIdleInterval d)); simpl;
    [| apply added_same; reflexivity].
  apply (added_trans P w
           (set_maxIdleInterval
              (Some (default 0 (cd_maxIdleInterval d) +
                     realtimeRequestTimeout (set_isConnected true w)))
              (set_isConnected true w))).
  - apply added_same. reflexivity.
  - apply (added_onActivity P). exact HP.
Qed.

Lemma added_finish (P : effect → Prop) event err w :
  (∀ h, P (ClearTimeout h)) → P (Emit event [PErr err]) → P Off →
  added P w (exec (finish event err) w).
Proof.
  intros H1 H2 H3. unfold exec. destruct (isFinished w) eqn:E.
  - rewrite finish_finished by auto. apply added_refl.
  - rewrite finish_first by auto. eexists. split; [reflexivity |].
    repeat constructor; auto.
Qed.

Lemma added_effect (P : effect → Prop) e w : P e → added P w (do_effect e w).
Proof. intros H. exists [e]. split; [reflexivity |]. repeat constructor. exact H. Qed.

(** X4.  Processing an inbound message never sends anything to the peer,
    whatever the message and the state: not on a peer CLOSED or
    DISCONNECTED, and not on a fatal ERROR. *)
Theorem inbound_never_sends (msg : ProtocolMessage) (w : World) :
  added (λ e, isSend e = false) w (exec (onProtocolMessage msg) w).
Proof.
  set (P := λ e, isSend e = false).
  assert (Ha : added P w (exec onActivity w))
    by (apply added_onActivity; reflexivity).
  destruct (onActivity_returns w) as [w1 Hw1].
  unfold exec in *. unfold onProtocolMessage, seq. rewrite Hw1 in *.
  cbn [fst] in Ha.
  assert (He : ∀ e, P e → added P w (do_effect e w1)).
  { intros e H. eapply added_trans; [exact Ha | apply added_effect, H]. }
  assert (Hf : ∀ event err, added P w (fst (finish event err w1))).
  { intros. eapply added_trans; [exact Ha |].
    apply (added_finish P); reflexivity. }
  destruct (action msg);
    unfold emit, onClose, onDisconnect, onFatalError, lift; cbn [fst];
    try (apply He; reflexivity); try apply Hf.
  - assert (Hc : added P w1 (fst (onConnect msg w1)))
      by (apply (added_onConnect P); reflexivity).
    destruct (onConnect msg w1) as [w2 [|m]]; cbn [fst] in *.
    + eapply added_trans; [exact Ha |].
      eapply added_trans; [exact Hc |]. apply added_effect. reflexivity.
    + eapply added_trans; eauto.
  - destruct (channel msg); [apply He; reflexivity | apply Hf].
  - destruct (connectionId msg); apply He; reflexivity.
Qed.

(** X5.  A message is handed to the channel-message handler exactly when
    it is channel-scoped (a SYNC without a connection id, an ERROR with a
    channel, or an action without a case of its own); then it is handed
    over as it is, once, and nothing else happens after the activity
    stamp.  Every other message is never handed over. *)
Theorem forwarded_iff_channel_scoped (msg : ProtocolMessage) (w : World) :
  (channelScoped msg = true →
     onProtocolMessage msg w =
       (do_effect (OnChannelMessage msg) (exec onActivity w), Returned)) ∧
  (channelScoped msg = false →
     notForwarded w (exec (onProtocolMessage msg) w)).
Proof.
  set (P := λ e, isOnChannelMessage e = false).
  assert (Ha : added P w (exec onActivity w))
    by (apply added_onActivity; reflexivity).
  destruct (onActivity_returns w) as [w1 Hw1].
  unfold exec in *. unfold onProtocolMessage, seq, channelScoped.
  rewrite Hw1 in *. cbn [fst] in Ha.
  assert (He : ∀ e, P e → added P w (do_effect e w1)).
  { intros e H. eapply added_trans; [exact Ha | apply added_effect, H]. }
  assert (Hf : ∀ event err, added P w (fst (finish event err w1))).
  { intros. eapply added_trans; [exact Ha |].
    apply (added_finish P); reflexivity. }
  unfold notForwarded. fold P.
  destruct (action msg);
    unfold emit, onClose, onDisconnect, onFatalError, lift; cbn [fst];
    (split; [try discriminate; try reflexivity | try discriminate]);
    try (intros _; apply He; reflexivity); try (intros _; apply Hf).
  - intros _.
    assert (Hc : added P w1 (fst (onConnect msg w1)))
      by (apply (added_onConnect P); reflexivity).
    destruct (onConnect msg w1) as [w2 [|m]]; cbn [fst] in *.
    + eapply added_trans; [exact Ha |].
      eapply added_trans; [exact Hc |]. apply added_effect. reflexivity.
    + eapply added_trans; eauto.
  - destruct (channel msg); [reflexivity | discriminate].
  - destruct (channel msg); [discriminate | intros _; apply Hf].
  - destruct (connectionId msg); [discriminate | reflexivity].
  - destruct (connectionId msg); [intros _; apply He; reflexivity | discriminate].
Qed.

(** *** Local disconnect and fail *)

Lemma sentIfConnected_trace m w :
  trace (sentIfConnected m w) =
    trace w ++ (if isConnected w then [Send m] else []) ∧
  isFinished (sentIfConnected m w) = isFinished w ∧
  idleTimer (sentIfConnected m w) = idleTimer w ∧
  timers (sentIfConnected m w) = timers w.
Proof.
  unfold sentIfConnected. destruct (isConnected w); simpl;
    rewrite ?app_nil_r; auto.
Qed.

(** X6.  On a transport that is not finished, [disconnect] and [fail]
    send DISCONNECT exactly when the transport is connected, and then
    emit "disconnected", respectively "failed", with the error given, or
    with the table's [disconnected], respectively [failed], entry when
    none is given. *)
Theorem disconnect_and_fail (w : World) :
  isFinished w = false →
  let sent := if isConnected w then [Send disconnectMessage] else [] in
  (∀ err,
     trace (exec (disconnect CE err) w) =
       trace w ++ sent ++
         [ClearTimeout (idleTimer w);
          Emit "disconnected"
            [PErr (match err with
                   | Some e => Some e
                   | None => ce_disconnected CE
                   end)];
          Off]) ∧
  (∀ err,
     trace (exec (fail CE err) w) =
       trace w ++ sent ++
         [ClearTimeout (idleTimer w);
          Emit "failed"
            [PErr (match err with
                   | Some e => Some e
                   | None => ce_failed CE
                   end)];
          Off]) ∧
  (∀ err, isFinished (exec (disconnect CE err) w) = true ∧
          isFinished (exec (fail CE err) w) = true ∧
          isConnected (exec (disconnect CE err) w) = false ∧
          isConnected (exec (fail CE err) w) = false).
Proof.
  intros Hf. cbv zeta.
  destruct (local_ops_shape w) as (_ & Hd & Hl).
  destruct (sentIfConnected_trace disconnectMessage w) as (Ht & HF & Hi & _).
  unfold exec. split; [| split]; intros err; rewrite ?Hd, ?Hl;
    rewrite ?finish_first by congruence; cbn [fst].
  - unfold finished. cbn [trace]. rewrite Ht, Hi, <- app_assoc.
    destruct err; reflexivity.
  - unfold finished. cbn [trace]. rewrite Ht, Hi, <- app_assoc.
    destruct err; reflexivity.
  - repeat split; reflexivity.
Qed.

(** *** A terminal step releases everything *)

(** X7.  Whatever ends a transport that is not yet finished ([close],
    [disconnect], [fail], [finish], a peer CLOSED, DISCONNECTED or fatal
    ERROR) leaves it finished, disposed and not connected, with
    [maxIdleInterval] and [idleTimer] null and no timer pending; this
    holds also when the activity stamp of the peer's message has just
    armed a timer. *)
Theorem terminal_step_releases_timer (o : op) (w : World) :
  timersOwned w → isFinished w = false → terminalOp o = true →
  let w' := exec (run CE o) w in
  isFinished w' = true ∧ isDisposed w' = true ∧ isConnected w' = false ∧
  maxIdleInterval w' = None ∧ idleTimer w' = None ∧ timers w' = ∅.
Proof.
  intros Ho Hf Ht. cbv zeta.
  assert (G : ∀ event err w1,
            timersOwned w1 → isFinished w1 = false →
            let w' := exec (finish event err) w1 in
            isFinished w' = true ∧ isDisposed w' = true ∧
            isConnected w' = false ∧ maxIdleInterval w' = None ∧
            idleTimer w' = None ∧ timers w' = ∅).
  { intros event err w1 Ho1 Hf1. cbv zeta. unfold exec.
    rewrite finish_first by auto. cbn [fst]. unfold finished. fields.
    repeat split.
    destruct Ho1 as [He | (h & d & Hi & Hm)].
    - rewrite He. destruct (idleTimer w1); [apply delete_empty | reflexivity].
    - rewrite Hi, Hm. apply delete_singleton_eq. }
  destruct (local_ops_shape w) as (Hc & Hd & Hl).
  assert (Hs : ∀ m, timersOwned (sentIfConnected m w) ∧
                    isFinished (sentIfConnected m w) = false).
  { intros m. split; [apply sentIfConnected_timersOwned, Ho |].
    destruct (sentIfConnected_trace m w) as (_ & -> & _). exact Hf. }
  destruct o; simpl in Ht; try discriminate Ht; simpl run.
  - unfold exec. rewrite Hc. apply G; apply Hs.
  - unfold exec. rewrite Hd. apply G; apply Hs.
  - unfold exec. rewrite Hl. apply G; apply Hs.
  - apply G; auto.
  - destruct (terminal_message_is_finish message w Ht) as [ev He].
    unfold exec at 1 2 3 4 5 6. rewrite He. apply G.
    + apply onActivity_timersOwned, Ho.
    + destruct (onActivity_quiet w) as (_ & _ & -> & _). exact Hf.
Qed.

(** *** CONNECTED without connection details *)

(** X8.  A CONNECTED message without [connectionDetails] makes
    [onProtocolMessage] throw: the transport is marked connected, but no
    "connected" event, and no event at all, is emitted. *)
Theorem connected_without_details_throws (msg : ProtocolMessage) (w : World) :
  action msg = CONNECTED → connectionDetails msg = None →
  (∃ m, onProtocolMessage msg w =
          (set_isConnected true (exec onActivity w), Threw m)) ∧
  isConnected (exec (onProtocolMessage msg) w) = true ∧
  noEmit w (exec (onProtocolMessage msg) w).
Proof.
  intros Ha Hd.
  destruct (onActivity_returns w) as [w1 Hw1].
  assert (Hq : noEmit w (exec onActivity w)) by apply onActivity_quiet.
  assert (E : onProtocolMessage msg w =
              (set_isConnected true w1,
               Threw "Transport.onConnect(): Connect message recieved without connectionDetails")).
  { unfold onProtocolMessage, seq. rewrite Hw1, Ha.
    unfold onConnect, seq, lift, throw. rewrite Hd. reflexivity. }
  unfold exec in *. rewrite Hw1 in *. rewrite E. cbn [fst] in *.
  split; [eauto |]. split; [reflexivity |].
  eapply added_trans; [exact Hq |]. apply added_same. reflexivity.
Qed.

(** *** The idle monitor over time *)

Lemma expire_cases w m l :
  maxIdleInterval w = Some m → m ≠ 0 → lastActivity w = Some l → l ≠ 0 →
  onIdleTimerExpire CE w =
    if m - (now w - l) <=? 0
    then disconnect CE (Some (idleError (now w - l))) (set_idleTimer None w)
    else (armed (m - (now w - l) + 100) (set_idleTimer None w), Returned).
Proof.
  intros Hm Hz Hl Hlz. unfold onIdleTimerExpire. rewrite Hm, Hl. simpl.
  apply Z.eqb_neq in Hz, Hlz. rewrite Hz, Hlz. simpl.
  unfold seq, lift. fields. rewrite Hm, Hl. simpl.
  destruct (m - (now w - l) <=? 0); [reflexivity |].
  apply setIdleTimer_free. reflexivity.
Qed.

Lemma plain_message_effect msg w :
  plainMessage msg = true →
  ∃ e, benign e ∧ isSetTimeout e = false ∧
       onProtocolMessage msg w = (do_effect e (exec onActivity w), Returned).
Proof.
  intros Hp. unfold plainMessage in Hp.
  destruct (onActivity_returns w) as [w1 Hw1].
  unfold exec, onProtocolMessage, seq. rewrite Hw1. cbn [fst].
  destruct (action msg); try discriminate Hp; unfold emit, lift;
    try (eexists; split; [| split; [| reflexivity]];
         [split; reflexivity | reflexivity]).
  - destruct (channel msg); [| discriminate Hp].
    eexists; split; [| split; [| reflexivity]];
      [split; reflexivity | reflexivity].
  - destruct (connectionId msg);
      (eexists; split; [| split; [| reflexivity]];
       [split; reflexivity | reflexivity]).
Qed.

(** X9.  Activity postpones the disconnect.  With the monitor on and a
    timer held, an inbound message stamps the time and arms nothing; when
    the held timer then runs out less than [maxIdleInterval] after that
    stamp, the transport is not disconnected: it arms the next timer for
    the rest of the interval plus 100. *)
Theorem activity_postpones_disconnect
    (msg : ProtocolMessage) (w : World) (m : Z) (h : handle) (d T : Z) :
  maxIdleInterval w = Some m → m ≠ 0 →
  idleTimer w = Some h → timers w !! h = Some d →
  now w ≠ 0 → plainMessage msg = true →
  T - now w < m →
  let w' := runs CE [Receive msg; Tick T; TimerFires h] w in
  let rest := m - (T - now w) + 100 in
  isFinished w' = isFinished w ∧
  lastActivity w' = Some (now w) ∧
  idleTimer w' = Some (nextHandle w) ∧
  timers w' = <[nextHandle w := rest]> (delete h (timers w)) ∧
  ∃ e, benign e ∧ trace w' = trace w ++ [e; SetTimeout (nextHandle w) rest].
Proof.
  intros Hm Hz Hi Ht Hn Hp HT w' rest.
  destruct (plain_message_effect msg w Hp) as (e & He & _ & Hmsg).
  set (w1 := do_effect e (set_lastActivity (Some (now w)) w)).
  assert (Hw : w' = armed rest (set_idleTimer None (expire h (set_now T w1)))).
  { subst w'. unfold runs. cbn [foldl]. unfold exec. cbn [run].
    rewrite Hmsg. cbn [fst]. unfold exec.
    rewrite (onActivity_active m) by auto. cbn [fst].
    unfold stamped. rewrite Hi. fold w1.
    unfold lift. cbn [fst].
    assert (Hl2 : timers (set_now T w1) !! h = Some d) by exact Ht.
    rewrite Hl2.
    rewrite (expire_cases (expire h (set_now T w1)) m (now w)) by auto.
    change (now (expire h (set_now T w1))) with T.
    replace (m - (T - now w) <=? 0) with false
      by (symmetry; apply Z.leb_gt; lia).
    reflexivity. }
  rewrite Hw. unfold armed, w1. fields.
  split; [reflexivity |]. split; [reflexivity |].
  split; [reflexivity |]. split; [reflexivity |].
  exists e. split; [exact He |]. rewrite <- app_assoc. reflexivity.
Qed.

(** X10.  When the idle timer of a transport that is not finished runs
    out and at least [maxIdleInterval] has passed since the last
    activity, the transport sends DISCONNECT if it is connected, emits
    "disconnected" with the "no activity" error (code 80003, status 408),
    and ends finished with no timer pending. *)
Theorem idle_timeout_disconnects (w : World) (m l : Z) (h : handle) (d : Z) :
  maxIdleInterval w = Some m → m ≠ 0 →
  lastActivity w = Some l → l ≠ 0 →
  timers w !! h = Some d → isFinished w = false →
  m <= now w - l →
  let w' := exec (run CE (TimerFires h)) w in
  trace w' =
    trace w ++ (if isConnected w then [Send disconnectMessage] else []) ++
      [ClearTimeout None;
       Emit "disconnected"
         [PErr (Some (EInfo (mkErrorInfo
                  ("No activity seen from realtime in " +:+
                   pretty (now w - l) +:+
                   "ms; assuming connection has dropped")
                  (Some 80003) (Some 408))))];
       Off] ∧
  isFinished w' = true ∧ isConnected w' = false ∧
  maxIdleInterval w' = None ∧ idleTimer w' = None ∧
  timers w' = delete h (timers w).
Proof.
  intros Hm Hz Hl Hlz Ht Hf Hcmp. cbv zeta.
  unfold exec. cbn [run]. rewrite Ht.
  rewrite (expire_cases (expire h w) m l); auto.
  change (now (expire h w)) with (now w).
  replace (m - (now w - l) <=? 0) with true
    by (symmetry; apply Z.leb_le; lia).
  set (w1 := set_idleTimer None (expire h w)).
  destruct (local_ops_shape w1) as (_ & Hd & _). rewrite Hd.
  destruct (sentIfConnected_trace disconnectMessage w1) as (Htr & HF & Hi & Htm).
  rewrite finish_first by (rewrite HF; exact Hf).
  cbn [fst]. unfold finished. fields. rewrite Htr, Hi, Htm.
  subst w1. fields. rewrite <- app_assoc.
  repeat split.
Qed.

Lemma monitorOff_effect e :
  isSetTimeout e = false → preserves monitorOff (lift (do_effect e)).
Proof.
  intros He w (Hm & Hi & Ht & Hall). unfold exec, lift. cbn [fst].
  repeat split; auto. fields. apply Forall_app. split; [exact Hall |].
  repeat constructor. exact He.
Qed.

Lemma monitorOff_frame f :
  (∀ w, maxIdleInterval (f w) = maxIdleInterval w ∧
        idleTimer (f w) = idleTimer w ∧ timers (f w) = timers w ∧
        trace (f w) = trace w) →
  preserves monitorOff (lift f).
Proof.
  intros Hf w (Hm & Hi & Ht & Hall). unfold exec, lift. cbn [fst].
  destruct (Hf w) as (E1 & E2 & E3 & E4).
  unfold monitorOff. rewrite E1, E2, E3, E4. auto.
Qed.

Lemma monitorOff_finish event err : preserves monitorOff (finish event err).
Proof.
  intros w H. unfold exec. destruct (isFinished w) eqn:E.
  - rewrite finish_finished by auto. exact H.
  - rewrite finish_first by auto. cbn [fst].
    destruct H as (Hm & Hi & Ht & Hall). unfold monitorOff, finished. fields.
    rewrite Hi. repeat split; auto.
    apply Forall_app. split; [exact Hall |]. repeat constructor.
Qed.

Lemma monitorOff_onActivity : preserves monitorOff onActivity.
Proof.
  intros w H. unfold exec. rewrite onActivity_inactive; [exact H |].
  destruct H as (-> & _). reflexivity.
Qed.

Lemma monitorOff_sendIfConnected m :
  preserves monitorOff (λ w, if isConnected w then send m w else ret w).
Proof.
  intros w H. unfold exec. destruct (isConnected w); [| exact H].
  apply (monitorOff_effect (Send m) eq_refl w H).
Qed.

Lemma run_monitorOff o :
  promisesIdle o = false → preserves monitorOff (run CE o).
Proof.
  intros Hp. destruct o; cbn [run].
  - apply preserves_ret.
  - apply preserves_seq; [apply monitorOff_sendIfConnected | apply monitorOff_finish].
  - apply preserves_seq; [apply monitorOff_sendIfConnected | apply monitorOff_finish].
  - apply preserves_seq; [apply monitorOff_sendIfConnected | apply monitorOff_finish].
  - apply monitorOff_finish.
  - apply monitorOff_effect. reflexivity.
  - unfold dispose. apply preserves_seq.
    + apply monitorOff_frame. intros w. repeat split; reflexivity.
    + apply monitorOff_effect. reflexivity.
  - unfold onProtocolMessage. apply preserves_seq;
      [apply monitorOff_onActivity |].
    cbn [promisesIdle] in Hp.
    destruct (action message);
      unfold emit, onClose, onDisconnect, onFatalError;
      try (apply monitorOff_effect; reflexivity);
      try apply monitorOff_finish.
    + apply preserves_seq; [| apply monitorOff_effect; reflexivity].
      unfold onConnect. apply preserves_seq.
      * apply monitorOff_frame. intros w. repeat split; reflexivity.
      * destruct (connectionDetails message) as [d|];
          [| apply preserves_throw].
        cbv zeta. rewrite Hp. apply preserves_ret.
    + destruct (channel message);
        [apply monitorOff_effect; reflexivity | apply monitorOff_finish].
    + destruct (connectionId message); apply monitorOff_effect; reflexivity.
  - intros w H. unfold exec.
    destruct H as (Hm & Hi & Ht & Hall).
    rewrite Ht, lookup_empty. cbn [fst]. repeat split; auto.
  - apply monitorOff_frame. intros w. repeat split; reflexivity.
Qed.

(** X11.  A transport that never processed a CONNECTED message promising
    an idle interval never arms a timer: its monitor stays off, whatever
    else it is asked to do or receives. *)
Theorem no_timer_without_promised_interval (rrt clock : Z) (os : list op) :
  Forall (λ o, promisesIdle o = false) os →
  let w := runs CE os (init rrt clock) in
  maxIdleInterval w = None ∧ idleTimer w = None ∧ timers w = ∅ ∧
  Forall (λ e, isSetTimeout e = false) (trace w).
Proof.
  intros Hall. cbv zeta.
  apply (runs_preserves monitorOff).
  - intros o Ho. apply run_monitorOff.
    rewrite Forall_forall in Hall. apply Hall, Ho.
  - repeat split. constructor.
Qed.

(** *** What can throw *)

Lemma returns_seq a b :
  (∀ w, returns a w) → (∀ w, returns b w) → ∀ w, returns (a >> b) w.
Proof.
  intros Ha Hb w. destruct (Ha w) as [w1 E1]. destruct (Hb w1) as [w2 E2].
  exists w2. unfold seq. rewrite E1. exact E2.
Qed.

Lemma returns_lift f w : returns (lift f) w.
Proof. eexists. reflexivity. Qed.

Lemma returns_finish event err w : returns (finish event err) w.
Proof.
  destruct (isFinished w) eqn:E; eexists;
    [apply finish_finished | apply finish_first]; exact E.
Qed.

Lemma returns_sendIfConnected m w :
  returns (λ w, if isConnected w then send m w else ret w) w.
Proof.
  unfold returns. cbv beta. destruct (isConnected w); eexists; reflexivity.
Qed.

Lemma returns_onProtocolMessage msg w :
  connectedWithoutDetails (Receive msg) = false →
  returns (onProtocolMessage msg) w.
Proof.
  intros Hc. revert w. unfold onProtocolMessage.
  apply returns_seq; [exact onActivity_returns |].
  cbn [connectedWithoutDetails] in Hc.
  destruct (action msg);
    unfold emit, onClose, onDisconnect, onFatalError;
    try (intros w; apply returns_lift);
    try (intros w; apply returns_finish).
  - apply returns_seq; [| intros w; apply returns_lift].
    unfold onConnect.
    apply returns_seq; [intros w; apply returns_lift |].
    destruct (connectionDetails msg) as [d|]; [| discriminate Hc].
    cbv zeta. destruct (truthyZ (cd_maxIdleInterval d)).
    + apply returns_seq; [intros w; apply returns_lift |].
      exact onActivity_returns.
    + intros w. eexists. reflexivity.
  - destruct (channel msg); intros w;
      [apply returns_lift | apply returns_finish].
  - destruct (connectionId msg); intros w; apply returns_lift.
Qed.

(** X18.  On a run with a well-behaved peer and clock, the one thing that
    makes the transport throw is a CONNECTED message without
    [connectionDetails]: every other call, message, timer expiry and
    clock reading returns normally, in every state the run can reach. *)
Theorem only_connected_without_details_throws
    (rrt clock : Z) (os : list op) (o : op) :
  0 <= rrt → clock ≠ 0 → Forall saneOp os →
  let w := runs CE os (init rrt clock) in
  returns (run CE o) w ↔ connectedWithoutDetails o = false.
Proof.
  intros Hr Hc Hall w. split.
  - intros [w' E]. destruct o; try reflexivity.
    cbn [connectedWithoutDetails].
    destruct (action message) eqn:Ea; try reflexivity.
    destruct (connectionDetails message) eqn:Ed; [reflexivity |].
    exfalso. cbn [run] in E.
    destruct (onActivity_returns w) as [w1 Hw1].
    unfold onProtocolMessage, seq in E. rewrite Hw1, Ea in E.
    unfold onConnect, seq, lift, throw in E. rewrite Ed in E.
    discriminate E.
  - intros Hn. destruct o; cbn [run].
    + eexists. reflexivity.
    + apply returns_seq;
        [apply returns_sendIfConnected | intros; apply returns_finish].
    + apply returns_seq;
        [apply returns_sendIfConnected | intros; apply returns_finish].
    + apply returns_seq;
        [apply returns_sendIfConnected | intros; apply returns_finish].
    + apply returns_finish.
    + apply returns_lift.
    + apply returns_seq; intros; apply returns_lift.
    + apply returns_onProtocolMessage, Hn.
    + unfold returns. cbv beta.
      destruct (timers w !! h) as [d|] eqn:Hh.
      * destruct (expiry_finds_fields_set rrt clock os h d Hr Hc Hall Hh)
          as (_ & _ & w' & E).
        exists w'. cbn [run] in E. fold w in E. rewrite Hh in E. exact E.
      * eexists. reflexivity.
    + apply returns_lift.
Qed.

End TransportProperties.

(** ** The transport on concrete runs *)

Import Transport.

Example lateConnected_state :
  isFinished lateConnected = true ∧ isConnected lateConnected = true ∧
  maxIdleInterval lateConnected = Some 25000 ∧
  idleTimer lateConnected = None ∧ timers lateConnected = ∅.
Proof. vm_compute. repeat split; reflexivity. Qed.

Example idle_timeout_scenario :
  trace (runs sampleErrors [Tick 26200; TimerFires 1%positive] connectedAt1000) =
    trace connectedAt1000 ++
      [Send disconnectMessage; ClearTimeout None;
       Emit "disconnected"
         [PErr (Some (EInfo (mkErrorInfo
            "No activity seen from realtime in 25200ms; assuming connection has dropped"
            (Some 80003) (Some 408))))];
       Off].
Proof. vm_compute. reflexivity. Qed.

Lemma finish_is_idempotent_witness :
  finish "failed" (Some tokenRevoked) lateConnected =
    (lateConnected, Returned) ∧
  trace (finished "closed" None (init 10000 1000)) =
    [ClearTimeout None; Emit "closed" [PErr None]; Off].
Proof.
  destruct (finish_is_idempotent sampleErrors lateConnected) as [H1 _].
  destruct (finish_is_idempotent sampleErrors (init 10000 1000)) as [_ H2].
  split.
  - apply H1. vm_compute. reflexivity.
  - destruct (H2 eq_refl "closed" None) as (_ & _ & _ & _ & _ & _ & Ht).
    exact Ht.
Defined.

(** C1, counterexample.  The transport [lateConnected] is finished; the
    CONNECTED it processed after [finish] set [maxIdleInterval] again, and
    its timer has run out.  A peer CLOSED now arms a new idle timer. *)
Lemma finished_transport_rearms_timer :
  isFinished lateConnected = true ∧
  terminalMessage closedMsg = true ∧
  trace (exec (onProtocolMessage closedMsg) lateConnected) =
    trace lateConnected ++ [SetTimeout 2%positive 25100] ∧
  ¬ noTimerArmed lateConnected
      (exec (onProtocolMessage closedMsg) lateConnected).
Proof.
  assert (Ht : trace (exec (onProtocolMessage closedMsg) lateConnected) =
               trace lateConnected ++ [SetTimeout 2%positive 25100])
    by (vm_compute; reflexivity).
  split; [vm_compute; reflexivity |].
  split; [reflexivity |]. split; [exact Ht |].
  intros (l & Hl & Hall). rewrite Ht in Hl.
  apply app_inv_head in Hl. subst l.
  inversion Hall as [| ? ? Hhd _]. discriminate Hhd.
Qed.

Lemma error_message_dispatch_witness :
  trace (exec (onProtocolMessage fatalErrorMsg) (init 10000 1000)) =
    [ClearTimeout None; Emit "failed" [PErr (Some tokenRevoked)]; Off] ∧
  trace (exec (onProtocolMessage channelErrorMsg) (init 10000 1000)) =
    [OnChannelMessage channelErrorMsg].
Proof.
  split.
  - destruct (error_message_dispatch fatalErrorMsg (init 10000 1000) eq_refl)
      as [H _].
    destruct (H eq_refl) as (_ & _ & H3).
    destruct (H3 eq_refl) as [_ Ht]. exact Ht.
  - destruct (error_message_dispatch channelErrorMsg (init 10000 1000) eq_refl)
      as [_ H].
    destruct (H "chat" eq_refl) as (_ & Ht & _). exact Ht.
Defined.

Lemma close_sends_iff_connected_witness :
  trace (exec (close sampleErrors) connectedAt1000) =
    trace connectedAt1000 ++
      [Send closeMessage; ClearTimeout (Some 1%positive);
       Emit "closed" [PErr (ce_closed sampleErrors)]; Off].
Proof.
  destruct (close_sends_iff_connected sampleErrors connectedAt1000)
    as (_ & _ & H).
  destruct (H eq_refl) as [_ Ht]. exact Ht.
Defined.

(** C3, counterexample.  With a table whose [closed] entry is the
    "Connection closed" error, the "closed" event of [close] carries that
    error, not an absent one. *)
Lemma close_carries_the_closed_error :
  trace (exec (close sampleErrors) (init 10000 1000)) =
    [ClearTimeout None;
     Emit "closed"
       [PErr (Some (EInfo (mkErrorInfo "Connection closed"
                             (Some 80017) (Some 400))))];
     Off] ∧
  Emit "closed" [PErr None] ∉
    trace (exec (close sampleErrors) (init 10000 1000)).
Proof.
  split; [reflexivity |].
  change (trace (exec (close sampleErrors) (init 10000 1000)))
    with [ClearTimeout None;
          Emit "closed"
            [PErr (Some (EInfo (mkErrorInfo "Connection closed"
                                  (Some 80017) (Some 400))))];
          Off].
  rewrite !elem_of_cons. intros [H | [H | [H | H]]];
    try discriminate H. inversion H.
Qed.

Lemma onConnect_handling_witness :
  maxIdleInterval (exec (onConnect connectedMsg) (init 10000 1000)) =
    Some 25000 ∧
  trace (exec (onConnect connectedMsg) (init 10000 1000)) =
    [SetTimeout 1%positive 25100].
Proof.
  destruct (onConnect_handling connectedMsg (init 10000 1000)) as (_ & H & _).
  assert (H1 : 0 < 15000) by lia.
  assert (H2 : 0 <= realtimeRequestTimeout (init 10000 1000))
    by (simpl; lia).
  destruct (H _ 15000 eq_refl eq_refl H1 H2)
    as (_ & _ & Hm & _ & _ & _ & Ht).
  split; [exact Hm |].
  destruct (Ht eq_refl) as (_ & _ & Hr). exact Hr.
Defined.

Lemma idle_monitor_steps_witness :
  (size (timers (runs sampleErrors
                   [Receive connectedMsg; Tick 5000; Receive closedMsg;
                    Receive connectedMsg; Tick 40000;
                    TimerFires 2%positive; Receive connectedMsg]
                   (init 10000 1000))) ≤ 1)%nat ∧
  onIdleTimerExpire sampleErrors (set_now 20000 connectedAt1000) =
    (armed 6100 (set_idleTimer None (set_now 20000 connectedAt1000)),
     Returned).
Proof.
  split.
  - destruct (idle_monitor_steps sampleErrors (init 10000 1000))
      as (_ & _ & H & _).
    apply H. left. reflexivity.
  - destruct (idle_monitor_steps sampleErrors (set_now 20000 connectedAt1000))
      as (_ & _ & _ & H).
    assert (H1 : (25000 : Z) ≠ 0) by lia.
    assert (H2 : (1000 : Z) ≠ 0) by lia.
    destruct (H 25000 1000 eq_refl H1 eq_refl H2) as [_ Hr].
    apply Hr. simpl. lia.
Defined.

Lemma disposed_implies_finished_kept_witness :
  disposedImpliesFinished
    (runs sampleErrors
       [Connect; Receive connectedMsg; Ping "p1"; Tick 30000;
        TimerFires 1%positive; Close; Receive fatalErrorMsg]
       (init 10000 1000)).
Proof.
  apply (disposed_implies_finished_kept sampleErrors).
  - repeat constructor; discriminate.
  - intros H. discriminate H.
Defined.

(** C6, counterexample.  A direct [dispose] on a fresh transport leaves it
    disposed and not finished. *)
Lemma dispose_breaks_disposed_implies_finished :
  disposedImpliesFinished (init 10000 1000) ∧
  isDisposed (runs sampleErrors [Dispose] (init 10000 1000)) = true ∧
  isFinished (runs sampleErrors [Dispose] (init 10000 1000)) = false ∧
  ¬ disposedImpliesFinished (runs sampleErrors [Dispose] (init 10000 1000)).
Proof.
  split; [intros H; discriminate H |].
  split; [reflexivity |]. split; [reflexivity |].
  intros H. specialize (H eq_refl). discriminate H.
Qed.

(** *** Runs of a transport *)

Lemma flags_never_revert_witness :
  isFinished (runs sampleErrors
                [Receive connectedMsg; Connect; Ping "p1"; Tick 30000]
                lateConnected) = true.
Proof.
  destruct (flags_never_revert sampleErrors
              [Receive connectedMsg; Connect; Ping "p1"; Tick 30000]
              lateConnected) as [H _].
  apply H. vm_compute. reflexivity.
Defined.

Lemma outcome_emitted_at_most_once_witness :
  countEffects isOutcome
    (runs sampleErrors
       [Receive connectedMsg; Close; Receive fatalErrorMsg; Disconnect None]
       (init 10000 1000)) = 1%nat.
Proof.
  destruct (outcome_emitted_at_most_once sampleErrors 10000 1000
              [Receive connectedMsg; Close; Receive fatalErrorMsg;
               Disconnect None]) as (_ & _ & H).
  apply H.
  - repeat constructor.
  - vm_compute. reflexivity.
Defined.

Lemma listeners_detached_once_witness :
  countEffects isOff
    (runs sampleErrors
       [Receive connectedMsg; Close; Receive fatalErrorMsg; Disconnect None]
       (init 10000 1000)) = 1%nat.
Proof.
  assert (Hall : Forall notDispose
                   [Receive connectedMsg; Close; Receive fatalErrorMsg;
                    Disconnect None])
    by (repeat constructor; discriminate).
  pose proof (listeners_detached_once sampleErrors 10000 1000 _ Hall) as H.
  cbv zeta in H. rewrite H. vm_compute. reflexivity.
Defined.

Lemma forwarded_iff_channel_scoped_witness :
  onProtocolMessage channelErrorMsg connectedAt1000 =
    (do_effect (OnChannelMessage channelErrorMsg)
       (exec onActivity connectedAt1000), Returned) ∧
  notForwarded connectedAt1000
    (exec (onProtocolMessage closedMsg) connectedAt1000).
Proof.
  split.
  - destruct (forwarded_iff_channel_scoped channelErrorMsg connectedAt1000)
      as [H _].
    apply H. reflexivity.
  - destruct (forwarded_iff_channel_scoped closedMsg connectedAt1000)
      as [_ H].
    apply H. reflexivity.
Defined.

Lemma disconnect_and_fail_witness :
  trace (exec (disconnect sampleErrors None) connectedAt1000) =
    trace connectedAt1000 ++
      [Send disconnectMessage; ClearTimeout (Some 1%positive);
       Emit "disconnected" [PErr (ce_disconnected sampleErrors)]; Off] ∧
  trace (exec (fail sampleErrors (Some tokenRevoked)) (init 10000 1000)) =
    [ClearTimeout None; Emit "failed" [PErr (Some tokenRevoked)]; Off].
Proof.
  split.
  - destruct (disconnect_and_fail sampleErrors connectedAt1000 eq_refl)
      as [H _].
    exact (H None).
  - destruct (disconnect_and_fail sampleErrors (init 10000 1000) eq_refl)
      as (_ & H & _).
    exact (H (Some tokenRevoked)).
Defined.

Lemma terminal_step_releases_timer_witness :
  timers (exec (run sampleErrors (Receive closedMsg)) connectedAt1000) = ∅ ∧
  isDisposed (exec (run sampleErrors (Receive closedMsg)) connectedAt1000)
    = true.
Proof.
  assert (Ho : timersOwned connectedAt1000).
  { right. exists 1%positive, 25100. split; reflexivity. }
  destruct (terminal_step_releases_timer sampleErrors (Receive closedMsg)
              connectedAt1000 Ho eq_refl eq_refl)
    as (_ & Hd & _ & _ & _ & Ht).
  split; [exact Ht | exact Hd].
Defined.

Lemma connected_without_details_throws_witness :
  isConnected
    (exec (onProtocolMessage (fromAction CONNECTED)) (init 10000 1000))
    = true ∧
  noEmit (init 10000 1000)
    (exec (onProtocolMessage (fromAction CONNECTED)) (init 10000 1000)).
Proof.
  destruct (connected_without_details_throws (fromAction CONNECTED)
              (init 10000 1000) eq_refl eq_refl) as (_ & H1 & H2).
  split; [exact H1 | exact H2].
Defined.

Lemma activity_postpones_disconnect_witness :
  isFinished
    (runs sampleErrors
       [Receive heartbeatMsg; Tick 20000; TimerFires 1%positive]
       connectedAt1000) = false ∧
  idleTimer
    (runs sampleErrors
       [Receive heartbeatMsg; Tick 20000; TimerFires 1%positive]
       connectedAt1000) = Some 2%positive ∧
  timers
    (runs sampleErrors
       [Receive heartbeatMsg; Tick 20000; TimerFires 1%positive]
       connectedAt1000) = {[2%positive := 6100]}.
Proof.
  assert (H1 : (25000 : Z) ≠ 0) by lia.
  assert (H2 : now connectedAt1000 ≠ 0) by (simpl; lia).
  assert (H3 : 20000 - now connectedAt1000 < 25000) by (simpl; lia).
  destruct (activity_postpones_disconnect sampleErrors heartbeatMsg
              connectedAt1000 25000 1%positive 25100 20000
              eq_refl H1 eq_refl eq_refl H2 eq_refl H3)
    as (Hf & _ & Hi & Ht & _).
  split; [rewrite Hf; reflexivity |].
  split; [rewrite Hi; reflexivity |].
  rewrite Ht. vm_compute. reflexivity.
Defined.

Lemma idle_timeout_disconnects_witness :
  isFinished
    (exec (run sampleErrors (TimerFires 1%positive))
       (set_now 26200 connectedAt1000)) = true ∧
  timers
    (exec (run sampleErrors (TimerFires 1%positive))
       (set_now 26200 connectedAt1000)) = ∅.
Proof.
  assert (H1 : (25000 : Z) ≠ 0) by lia.
  assert (H2 : (1000 : Z) ≠ 0) by lia.
  assert (H3 : 25000 <= now (set_now 26200 connectedAt1000) - 1000)
    by (simpl; lia).
  destruct (idle_timeout_disconnects sampleErrors
              (set_now 26200 connectedAt1000) 25000 1000 1%positive 25100
              eq_refl H1 eq_refl H2 eq_refl eq_refl H3)
    as (_ & Hf & _ & _ & _ & Ht).
  split; [exact Hf |]. rewrite Ht. reflexivity.
Defined.

Lemma no_timer_without_promised_interval_witness :
  timers (runs sampleErrors
            [Connect; Receive heartbeatMsg; Ping "p1"; Tick 5000;
             Receive channelErrorMsg; Close]
            (init 10000 1000)) = ∅.
Proof.
  destruct (no_timer_without_promised_interval sampleErrors 10000 1000
              [Connect; Receive heartbeatMsg; Ping "p1"; Tick 5000;
               Receive channelErrorMsg; Close])
    as (_ & _ & H & _).
  - repeat constructor.
  - exact H.
Defined.

Lemma only_connected_without_details_throws_witness :
  returns (run sampleErrors (TimerFires 1%positive))
    (runs sampleErrors [Receive connectedMsg; Tick 30000] (init 10000 1000)).
Proof.
  assert (H1 : 0 <= 10000) by lia.
  assert (H2 : (1000 : Z) ≠ 0) by lia.
  assert (H3 : Forall saneOp [Receive connectedMsg; Tick 30000]).
  { apply Forall_cons_2.
    - intros d D Hd HD. inversion Hd; subst. inversion HD; subst. lia.
    - apply Forall_cons_2; [| apply Forall_nil_2]. cbn [saneOp]. lia. }
  apply (only_connected_without_details_throws sampleErrors 10000 1000
           [Receive connectedMsg; Tick 30000] (TimerFires 1%positive)
           H1 H2 H3).
  reflexivity.
Defined.

(** ** The request executor *)

Section FetchProperties.

Import Fetch.

Variable fromValues : json → ErrorInfo.
Variable inspect : Body → string.
Variable searchParams : list (string * string) → string.
Variable defaultHttpRequestTimeout : Z.

Abbreviation fetchRequest :=
  (Fetch.fetchRequest searchParams defaultHttpRequestTimeout).
Abbreviation step := (Fetch.step fromValues inspect).
Abbreviation steps := (Fetch.steps fromValues inspect).

(** *** Facts about [indexOf] *)

Lemma indexOfFrom_range sub s i :
  indexOfFrom sub s i = -1 ∨ i <= indexOfFrom sub s i.
Proof.
  revert i. induction s as [|c s IH]; intros i; cbn [indexOfFrom].
  - destruct (String.prefix sub ""); [right; lia | left; reflexivity].
  - destruct (String.prefix sub (String c s)); [right; lia |].
    destruct (IH (i + 1)) as [H | H]; [left; exact H | right; lia].
Qed.

Lemma indexOf_found_or_not s sub :
  (indexOf s sub >? -1) = negb (indexOf s sub =? -1).
Proof.
  unfold indexOf. destruct (indexOfFrom_range sub s 0) as [H | H].
  - rewrite H. reflexivity.
  - destruct (Z.gtb_spec (indexOfFrom sub s 0) (-1)); [| lia].
    destruct (Z.eqb_spec (indexOfFrom sub s 0) (-1)); [lia | reflexivity].
Qed.

(** *** The request as [fetchRequest] leaves it *)

Lemma fetchRequest_start method rest uri hdrs params body :
  let r0 := fetchRequest method rest uri hdrs params body in
  fetchState r0 = InFlight ∧ calls r0 = [] ∧ abortCalls r0 = 0%nat ∧
  ri_signal (init r0) = None ∧
  timeout r0 = Armed (match rest with
                      | Some r => httpRequestTimeout r
                      | None => defaultHttpRequestTimeout
                      end).
Proof. simpl. repeat split; reflexivity. Qed.

(** When the timer runs out on a request in flight whose [fetch] was not
    given the controller's signal: [abort] is called once, the callback
    gets the timeout error, and the fetch stays in flight. *)
Lemma timeout_unwired r d :
  timeout r = Armed d → fetchState r = InFlight →
  ri_signal (init r) = None →
  step TimeoutFires r =
    mkRequest (url r) (init r) (controller r) (S (abortCalls r)) Fired
      InFlight (calls r ++ [errorOnly timedOut]) (unhandled r).
Proof.
  intros Ht Hf Hs. unfold Fetch.step. rewrite Ht.
  unfold onTimeout, abort. simpl. rewrite Hf, Hs. simpl.
  unfold callback. simpl. rewrite Hf. reflexivity.
Qed.

(** Had the request been given the controller's signal, the abort would
    reject the fetch and the [catch] handler would call the callback
    again, with the abort error. *)
Lemma timeout_wired r d :
  timeout r = Armed d → fetchState r = InFlight →
  ri_signal (init r) = Some (controller r) →
  calls (step TimeoutFires r) =
    calls r ++ [errorOnly timedOut; errorOnly abortError] ∧
  fetchState (step TimeoutFires r) = Settled.
Proof.
  intros Ht Hf Hs. unfold Fetch.step. rewrite Ht.
  unfold onTimeout, abort. simpl. rewrite Hf, Hs, Nat.eqb_refl. simpl.
  rewrite <- app_assoc. split; reflexivity.
Qed.

(** The response disarms the timer; the timer cannot fire afterwards. *)
Lemma response_disarms_timeout r d res :
  timeout r = Armed d → fetchState r = InFlight →
  timeout (step (ResponseArrives res) r) = Cleared ∧
  step TimeoutFires (step (ResponseArrives res) r) =
    step (ResponseArrives res) r.
Proof.
  intros Ht Hf. unfold Fetch.step. rewrite Hf.
  unfold onResponse, clearTimeout. rewrite Ht. simpl. auto.
Qed.

(** C7, evaluated.  When no response arrives before the timeout, the
    handler calls [abort] once and delivers the "Request timed out" error
    with status 408; but the options object given to [fetch] has no
    [signal], so the request is not cancelled: it is still in flight, and a
    response that arrives later is still processed. *)
Theorem timeout_does_not_cancel_request method rest uri hdrs params body :
  let r0 := fetchRequest method rest uri hdrs params body in
  let r1 := step TimeoutFires r0 in
  abortCalls r1 = 1%nat ∧
  calls r1 =
    [errorOnly (EInfo (mkErrorInfo "Request timed out" None (Some 408)))] ∧
  ri_signal (init r0) = None ∧
  fetchState r1 = InFlight ∧
  (∀ res, fetchState (step (ResponseArrives res) r1) = AwaitingBody res).
Proof.
  intros r0 r1. subst r1.
  rewrite (timeout_unwired r0 _ eq_refl eq_refl eq_refl).
  repeat split; reflexivity.
Qed.

(** *** Responses *)

Lemma body_step r res body :
  fetchState r = AwaitingBody res →
  sameKind (kindOf body) (decoder (headersGet "Content-Type" (headers res)))
    = true →
  step (BodyDecoded body) r =
    onBody fromValues inspect res body (set_fetchState Settled r).
Proof. intros Hf Hk. unfold Fetch.step. rewrite Hf, Hk. reflexivity. Qed.


(** C9.  The packed flag is true exactly when the content type is declared
    (a non-empty header value) and does not name the msgpack type: false
    when the binary decoder was chosen, true for a declared content type
    decoded as JSON or as text, false without a content type; and it is
    the flag the callback receives. *)
Theorem packed_flag (contentType : option string) :
  (packed contentType = true ↔
     ∃ s, contentType = Some s ∧ s ≠ "" ∧
          indexOf s "application/x-msgpack" = -1) ∧
  (decoder contentType = Binary → packed contentType = false) ∧
  (∀ s, contentType = Some s → s ≠ "" →
     decoder contentType = Json ∨ decoder contentType = Text →
     packed contentType = true) ∧
  (contentType = None → packed contentType = false) ∧
  (∀ r res body,
     fetchState r = AwaitingBody res →
     headersGet "Content-Type" (headers res) = contentType →
     sameKind (kindOf body) (decoder contentType) = true →
     ok res = true →
     calls (step (BodyDecoded body) r) =
       calls r ++
         [mkCallbackArgs None (Some body) (Some (headers res))
            (Some (packed contentType)) (Some (status res))]).
Proof.
  split; [| split; [| split; [| split]]].
  - unfold packed, msgpack. split.
    + intros H. apply andb_true_iff in H as [Ht Hi].
      destruct contentType as [s|]; [| discriminate].
      exists s. simpl in *. apply negb_true_iff, String.eqb_neq in Ht.
      apply Z.eqb_eq in Hi. auto.
    + intros (s & -> & Hne & Hi). simpl.
      apply String.eqb_neq in Hne. rewrite Hne, Hi. reflexivity.
  - unfold decoder, packed. rewrite indexOf_found_or_not.
    destruct (truthyS contentType); simpl; [| reflexivity].
    destruct (indexOf _ msgpack =? -1); simpl; [| reflexivity].
    destruct (indexOf _ "application/json" >? -1); discriminate.
  - intros s -> Hne. unfold decoder, packed. rewrite indexOf_found_or_not.
    simpl. apply String.eqb_neq in Hne. rewrite Hne. simpl.
    destruct (indexOf s msgpack =? -1); simpl; [reflexivity |].
    intros [H | H]; discriminate.
  - intros ->. reflexivity.
  - intros r res body Hf Hct Hk Hok. rewrite <- Hct in Hk.
    rewrite (body_step r res body Hf Hk).
    unfold onBody. rewrite Hok, Hct. reflexivity.
Qed.

(** The fetch that the timeout left in flight can still settle on its
    own, by a rejection or by a late 2xx response; its handler then calls
    the callback after the timeout handler has called it. *)
Theorem callback_called_again_when_fetch_settles
    method rest uri hdrs params body :
  let r0 := fetchRequest method rest uri hdrs params body in
  let r1 := step TimeoutFires r0 in
  calls r1 = [errorOnly timedOut] ∧
  (∀ e, calls (step (FetchFails e) r1) = [errorOnly timedOut; errorOnly e]) ∧
  (∀ res b,
     sameKind (kindOf b) (decoder (headersGet "Content-Type" (headers res)))
       = true →
     ok res = true →
     calls (steps [ResponseArrives res; BodyDecoded b] r1) =
       [errorOnly timedOut; responseArgs None res b]).
Proof.
  intros r0 r1. subst r1.
  rewrite (timeout_unwired r0 _ eq_refl eq_refl eq_refl).
  split; [reflexivity |]. split; [reflexivity |].
  intros res b Hk Hok. unfold Fetch.steps. simpl.
  rewrite Hk. unfold onBody. rewrite Hok. reflexivity.
Qed.

(** C10, evaluated.  When the timer runs out the handler calls [abort]
    and then the callback, once, with the 408 error.  The claim has the
    abort reject the fetch in flight, so that the [catch] handler calls the
    callback a second time, with the abort error.  The options object
    given to [fetch] has no [signal], so the abort rejects nothing: when
    the handler has returned the callback has been called exactly once,
    no call with the abort error has followed, the fetch is still in
    flight, and every event other than the fetch settling on its own
    leaves the request as it is. *)
Theorem timeout_abort_rejects_nothing method rest uri hdrs params body :
  let r0 := fetchRequest method rest uri hdrs params body in
  let r1 := step TimeoutFires r0 in
  ri_signal (init r0) = None ∧
  abort (set_timeout Fired r0) = (countAbort (set_timeout Fired r0), None) ∧
  abortCalls r1 = 1%nat ∧
  calls r1 = [errorOnly timedOut] ∧
  calls r1 ≠ [errorOnly timedOut; errorOnly abortError] ∧
  (errorOnly abortError ∉ calls r1) ∧
  fetchState r1 = InFlight ∧
  (∀ ev, fetchSettles ev = true ∨ step ev r1 = r1).
Proof.
  intros r0 r1. subst r1.
  rewrite (timeout_unwired r0 _ eq_refl eq_refl eq_refl).
  split; [reflexivity |]. split; [reflexivity |].
  split; [reflexivity |]. split; [reflexivity |].
  split; [discriminate |].
  split; [apply not_elem_of_cons; split; [discriminate | apply not_elem_of_nil] |].
  split; [reflexivity |].
  intros [| res | b | e | e];
    [right; reflexivity | left; reflexivity | right; reflexivity
    | right; reflexivity | left; reflexivity].
Qed.

(** *** Every run of a request *)

Lemma fetchRequest_inv method rest uri hdrs params body :
  requestInv (fetchRequest method rest uri hdrs params body).
Proof.
  split; [reflexivity |]. split; [| discriminate].
  unfold withinBudget. simpl. lia.
Qed.

Lemma step_inv ev r :
  requestInv r →
  requestInv (step ev r) ∧
  (isTimeoutFires ev = false → timerFired r = false →
   timerFired (step ev r) = false).
Proof.
  destruct r as [u [im ih ib ic isg] c a t f cs uh].
  unfold requestInv, unwired, withinBudget, timerFired, fetchSettled,
    fetchInFlight, timerPending.
  simpl. intros (-> & Hb & Ht).
  destruct ev as [| res | b | e | e]; simpl.
  - destruct t; simpl; [| auto | auto].
    destruct f; simpl in *; rewrite ?length_app; simpl;
      (split; [repeat split; (lia || auto) | discriminate]).
  - destruct f; simpl; [| auto | auto].
    destruct t; simpl in *;
      (split; [repeat split; (lia || auto) | auto]).
  - destruct f as [| res |]; simpl; [auto | | auto].
    destruct (sameKind _ _); simpl; [| auto].
    unfold onBody. simpl.
    destruct (negb (ok res)); simpl;
      [destruct (getAblyError _ _ _); simpl |];
      rewrite ?length_app; simpl;
      (split; [repeat split; (destruct t; simpl in *; lia) || auto | auto]).
  - destruct f; simpl; [auto | | auto].
    split; [repeat split; (destruct t; simpl in *; lia) || auto | auto].
  - destruct f; simpl; [| auto | auto].
    destruct t; simpl in *; rewrite ?length_app; simpl;
      (split; [repeat split; (lia || auto) | auto]).
Qed.

Lemma steps_inv evs r : requestInv r → requestInv (steps evs r).
Proof.
  revert r. induction evs as [| ev evs IH]; intros r H; [exact H |].
  apply IH, step_inv, H.
Qed.

Lemma steps_timer_not_fired evs r :
  requestInv r → Forall (λ ev, isTimeoutFires ev = false) evs →
  timerFired r = false → timerFired (steps evs r) = false.
Proof.
  revert r. induction evs as [| ev evs IH]; intros r H Hall Hf; [exact Hf |].
  inversion Hall as [| ? ? Hev Hrest]; subst.
  destruct (step_inv ev r H) as [H' Hk].
  apply IH; auto.
Qed.

(** A request whose fetch has settled and whose timer is not pending
    ignores every event. *)
Lemma done_absorbs evs r :
  fetchSettled r = true → timerPending r = false → steps evs r = r.
Proof.
  unfold fetchSettled, timerPending. intros Hs Hp.
  induction evs as [| ev evs IH]; [reflexivity |].
  change (steps (ev :: evs) r) with (steps evs (step ev r)).
  assert (E : step ev r = r).
  { destruct ev; simpl;
      destruct (fetchState r); try discriminate Hs;
      destruct (timeout r); try discriminate Hp; reflexivity. }
  rewrite E. exact IH.
Qed.

(** X12.  Whatever the host delivers to a request and in whatever order,
    the callback is called at most twice, and at most once when the timer
    does not fire. *)
Theorem callback_called_at_most_twice
    method rest uri hdrs params body (evs : list event) :
  let r := steps evs (fetchRequest method rest uri hdrs params body) in
  (List.length (calls r) ≤ 2)%nat ∧
  (Forall (λ ev, isTimeoutFires ev = false) evs →
   (List.length (calls r) ≤ 1)%nat).
Proof.
  cbv zeta.
  set (r0 := fetchRequest method rest uri hdrs params body).
  assert (H0 : requestInv r0) by apply fetchRequest_inv.
  destruct (steps_inv evs r0 H0) as (_ & Hb & _).
  unfold withinBudget in Hb. split.
  - destruct (timerFired _), (fetchSettled _); lia.
  - intros Hall.
    rewrite (steps_timer_not_fired evs r0 H0 Hall eq_refl) in Hb.
    destruct (fetchSettled _); lia.
Qed.

(** X13.  The timer never outlives the fetch: once a response has arrived
    or the fetch has failed, no timer is pending, whatever else was
    delivered before or after. *)
Theorem timer_pending_only_in_flight
    method rest uri hdrs params body (evs : list event) :
  let r := steps evs (fetchRequest method rest uri hdrs params body) in
  fetchState r ≠ InFlight → ∀ d, timeout r ≠ Armed d.
Proof.
  cbv zeta. intros Hf d Ht.
  destruct (steps_inv evs _ (fetchRequest_inv method rest uri hdrs params body))
    as (_ & _ & Hp).
  unfold fetchInFlight, timerPending in Hp. rewrite Ht in Hp.
  destruct (fetchState _); [apply Hf; reflexivity | |];
    specialize (Hp eq_refl); discriminate Hp.
Qed.

(** X14.  A request that completes before its timer fires calls the
    callback exactly once, whatever is delivered afterwards: with the
    error alone when the fetch fails, and with no error, the body, the
    headers, the packed flag and the status when a 2xx response is
    decoded. *)
Theorem completed_request_calls_back_once
    method rest uri hdrs params body (evs : list event) :
  let r0 := fetchRequest method rest uri hdrs params body in
  (∀ e, calls (steps (FetchFails e :: evs) r0) = [errorOnly e]) ∧
  (∀ res b,
     sameKind (kindOf b) (decoder (headersGet "Content-Type" (headers res)))
       = true →
     ok res = true →
     calls (steps (ResponseArrives res :: BodyDecoded b :: evs) r0) =
       [responseArgs None res b]).
Proof.
  cbv zeta. split.
  - intros e.
    change (steps (FetchFails e :: evs) ?r) with (steps evs (step (FetchFails e) r)).
    rewrite done_absorbs; reflexivity.
  - intros res b Hk Hok.
    change (steps (ResponseArrives res :: BodyDecoded b :: evs) ?r)
      with (steps evs (step (BodyDecoded b) (step (ResponseArrives res) r))).
    set (r1 := step (ResponseArrives res) _).
    rewrite (body_step r1 res b eq_refl Hk).
    unfold onBody. rewrite Hok. simpl negb. cbv iota.
    rewrite done_absorbs; reflexivity.
Qed.

(** X15.  A response whose body cannot be decoded never reaches the
    callback: the rejection of the decoding is handled by nobody, the
    timer was cleared when the response arrived, and nothing delivered
    later calls the callback. *)
Theorem undecodable_body_never_reported
    method rest uri hdrs params body (res : Response) (e : ErrorVal)
    (evs : list event) :
  let r := steps (ResponseArrives res :: BodyFails e :: evs)
             (fetchRequest method rest uri hdrs params body) in
  calls r = [] ∧ unhandled r = [e] ∧ timeout r = Cleared.
Proof.
  cbv zeta.
  change (steps (ResponseArrives res :: BodyFails e :: evs) ?r)
    with (steps evs (step (BodyFails e) (step (ResponseArrives res) r))).
  rewrite done_absorbs; repeat split; reflexivity.
Qed.

(** X16.  A response that is not 2xx, carries the error-code header and
    has the JSON body [null] never reaches the callback either: reading
    [error] off [null] throws inside the body handler, and nothing
    delivered later calls the callback. *)
Theorem null_error_body_never_reported
    method rest uri hdrs params body (res : Response) (evs : list event) :
  ok res = false →
  truthyS (headersGet "x-ably-errorcode" (headers res)) = true →
  decoder (headersGet "Content-Type" (headers res)) = Json →
  let r := steps (ResponseArrives res :: BodyDecoded (BJson JNull) :: evs)
             (fetchRequest method rest uri hdrs params body) in
  calls r = [] ∧ unhandled r = [nullErrorProperty] ∧ timeout r = Cleared.
Proof.
  intros Hok Hh Hd. cbv zeta.
  change (steps (ResponseArrives res :: BodyDecoded (BJson JNull) :: evs) ?r)
    with (steps evs (step (BodyDecoded (BJson JNull))
                       (step (ResponseArrives res) r))).
  set (r1 := step (ResponseArrives res) _).
  assert (Hk : sameKind (kindOf (BJson JNull))
                 (decoder (headersGet "Content-Type" (headers res))) = true)
    by (rewrite Hd; reflexivity).
  rewrite (body_step r1 res (BJson JNull) eq_refl Hk).
  unfold onBody. rewrite Hok. simpl negb. cbv iota.
  unfold getAblyError, isAblyError. rewrite Hh. simpl errorProperty. cbv iota.
  rewrite done_absorbs; repeat split; reflexivity.
Qed.

(** *** The headers of the request *)

Lemma headersAppend_is_Some h kv k :
  is_Some (headersAppend h kv !! k) ↔
  is_Some (h !! k) ∨ toLowerCase kv.1 = k.
Proof.
  unfold headersAppend.
  destruct (h !! toLowerCase kv.1) eqn:E;
    rewrite lookup_insert_is_Some;
    (split; [intros [H | [_ H]]; auto | intros [H | H]; auto]);
    (destruct (decide (toLowerCase kv.1 = k)); [left; assumption | right; auto]).
Qed.

Lemma newHeaders_is_Some l h k :
  is_Some (foldl headersAppend h l !! k) ↔
  is_Some (h !! k) ∨ ∃ kv, kv ∈ l ∧ toLowerCase kv.1 = k.
Proof.
  revert h. induction l as [| kv l IH]; intros h; simpl.
  - split; [auto |]. intros [H | (kv & H & _)]; [exact H |].
    inversion H.
  - rewrite IH, headersAppend_is_Some. split.
    + intros [[H | H] | (kv' & H & E)]; [auto | |].
      * right. exists kv. split; [apply list_elem_of_here | exact H].
      * right. exists kv'. split; [apply list_elem_of_further, H | exact E].
    + intros [H | (kv' & H & E)]; [auto |].
      apply elem_of_cons in H as [-> | H]; [auto |].
      right. exists kv'. auto.
Qed.

(** X17.  The request is sent with credentials "include" exactly when one
    of the names of the headers supplied is "authorization" in any mix of
    upper and lower case, and with "same-origin" otherwise. *)
Theorem credentials_follow_authorization_header
    method rest uri hdrs params body :
  let r := fetchRequest method rest uri hdrs params body in
  (ri_credentials (init r) = "include" ↔
     ∃ k v, (k, v) ∈ default [] hdrs ∧ toLowerCase k = "authorization") ∧
  (ri_credentials (init r) ≠ "include" →
     ri_credentials (init r) = "same-origin").
Proof.
  cbv zeta. cbn [fetchRequest Fetch.fetchRequest init ri_credentials].
  unfold headersHas, newHeaders.
  destruct (bool_decide_reflect
              (is_Some (foldl headersAppend ∅ (default [] hdrs)
                          !! toLowerCase "authorization"))) as [H | H].
  - split; [| intros Hn; destruct Hn; reflexivity].
    split; [intros _ | reflexivity].
    apply newHeaders_is_Some in H as [H | ([k v] & Hin & E)].
    + rewrite lookup_empty in H. destruct H as [? H]. discriminate H.
    + exists k, v. auto.
  - split; [| reflexivity].
    split; [discriminate |].
    intros (k & v & Hin & E). destruct H.
    apply newHeaders_is_Some. right. exists (k, v). auto.
Qed.

End FetchProperties.

(** ** The request executor on concrete runs *)

Import Fetch.

Example method_defaults :
  ri_method (init timeRequest) = "GET" ∧
  ri_method (init (fetchRequest sampleSearchParams 10000 None None
                     "https://rest.ably.io/channels/a/messages" None None
                     (Some (BText "hello")))) = "POST" ∧
  ri_method (init (fetchRequest sampleSearchParams 10000 None None
                     "https://rest.ably.io/time" None None None)) = "GET".
Proof. repeat split; reflexivity. Qed.

Example decoders :
  decoder (Some "application/x-msgpack") = Binary ∧
  decoder (Some "application/json; charset=utf-8") = Json ∧
  decoder (Some "text/html") = Text ∧
  decoder None = Text ∧
  packed (Some "application/x-msgpack") = false ∧
  packed (Some "application/json; charset=utf-8") = true ∧
  packed (Some "text/html") = true ∧
  packed None = false.
Proof. vm_compute. repeat split; reflexivity. Qed.

(** C7 and C10 come from one omission: with the controller's signal in
    the options object, the timeout would settle the fetch, and the
    [catch] handler would call the callback with the abort error. *)
Example timeout_with_signal_wired :
  let wired :=
    mkRequest (url timeRequest)
      (mkRequestInit "GET" ∅ None "same-origin" (Some 0%nat))
      0%nat 0%nat (Armed 10000) InFlight [] [] in
  calls (step sampleFromValues sampleInspect TimeoutFires wired) =
    [errorOnly timedOut; errorOnly abortError] ∧
  fetchState (step sampleFromValues sampleInspect TimeoutFires wired) = Settled.
Proof. split; reflexivity. Qed.



Lemma packed_flag_witness :
  packed (Some "application/json") = true ∧
  calls (steps sampleFromValues sampleInspect
           [ResponseArrives okResponse; BodyDecoded okBody] timeRequest) =
    [mkCallbackArgs None (Some okBody) (Some (headers okResponse))
       (Some (packed (Some "application/json"))) (Some 200)].
Proof.
  destruct (packed_flag sampleFromValues sampleInspect (Some "application/json"))
    as (_ & _ & H3 & _ & H5).
  split.
  - apply (H3 "application/json" eq_refl); [discriminate |].
    left. vm_compute. reflexivity.
  - apply (H5 (step sampleFromValues sampleInspect
                 (ResponseArrives okResponse) timeRequest)
              okResponse okBody eq_refl).
    + vm_compute. reflexivity.
    + vm_compute. reflexivity.
    + reflexivity.
Defined.

Lemma callback_called_again_witness :
  calls (steps sampleFromValues sampleInspect
           [TimeoutFires; ResponseArrives okResponse; BodyDecoded okBody]
           timeRequest) =
    [errorOnly timedOut; responseArgs None okResponse okBody].
Proof.
  destruct (callback_called_again_when_fetch_settles sampleFromValues
              sampleInspect sampleSearchParams 10000 (Some "get") None
              "https://rest.ably.io/time" None None None)
    as (_ & _ & H).
  apply (H okResponse okBody); [vm_compute; reflexivity | reflexivity].
Defined.

(** The request for the service time: after the timeout handler has run,
    the callback has been called once, with the timeout error; no abort
    error follows, and the fetch is still in flight. *)
Lemma timeout_is_not_followed_by_abort_rejection :
  let r1 := step sampleFromValues sampleInspect TimeoutFires timeRequest in
  abortCalls r1 = 1%nat ∧
  calls r1 = [errorOnly timedOut] ∧
  calls r1 ≠ [errorOnly timedOut; errorOnly abortError] ∧
  fetchState r1 = InFlight.
Proof.
  intros r1. split; [reflexivity |]. split; [reflexivity |].
  split; [| reflexivity].
  change (calls r1) with [errorOnly timedOut]. discriminate.
Qed.

(** A JSON body that is [null], on a failure response with the error-code
    header: reading [responseBody.error] throws inside the inner [then]
    handler, the rejection is unhandled, and the callback is not called. *)
Example null_body_with_errorcode_header :
  let r := steps sampleFromValues sampleInspect
             [ResponseArrives badGateway; BodyDecoded (BJson JNull)]
             timeRequest in
  calls r = [] ∧
  unhandled r =
    [EPlain "TypeError" "Cannot read properties of null (reading 'error')"].
Proof. vm_compute. split; reflexivity. Qed.

(** *** Runs of a request *)

Lemma callback_called_at_most_twice_witness :
  (List.length
     (calls (steps sampleFromValues sampleInspect
               [FetchFails abortError; ResponseArrives okResponse;
                BodyDecoded okBody; FetchFails timedOut]
               timeRequest)) ≤ 1)%nat.
Proof.
  destruct (callback_called_at_most_twice sampleFromValues sampleInspect
              sampleSearchParams 10000 (Some "get") None
              "https://rest.ably.io/time" None None None
              [FetchFails abortError; ResponseArrives okResponse;
               BodyDecoded okBody; FetchFails timedOut])
    as [_ H].
  apply H. repeat constructor.
Defined.

Lemma timer_pending_only_in_flight_witness :
  timeout (steps sampleFromValues sampleInspect
             [ResponseArrives okResponse] timeRequest) ≠ Armed 10000.
Proof.
  apply (timer_pending_only_in_flight sampleFromValues sampleInspect
           sampleSearchParams 10000 (Some "get") None
           "https://rest.ably.io/time" None None None
           [ResponseArrives okResponse]).
  vm_compute. discriminate.
Defined.

Lemma completed_request_calls_back_once_witness :
  calls (steps sampleFromValues sampleInspect
           [ResponseArrives okResponse; BodyDecoded okBody; TimeoutFires;
            FetchFails abortError]
           timeRequest) =
    [responseArgs None okResponse okBody].
Proof.
  destruct (completed_request_calls_back_once sampleFromValues sampleInspect
              sampleSearchParams 10000 (Some "get") None
              "https://rest.ably.io/time" None None None
              [TimeoutFires; FetchFails abortError])
    as [_ H].
  apply (H okResponse okBody); [vm_compute; reflexivity | reflexivity].
Defined.

Lemma null_error_body_never_reported_witness :
  calls (steps sampleFromValues sampleInspect
           [ResponseArrives badGateway; BodyDecoded (BJson JNull);
            TimeoutFires]
           timeRequest) = [].
Proof.
  assert (H1 : ok badGateway = false) by reflexivity.
  assert (H2 : truthyS (headersGet "x-ably-errorcode" (headers badGateway))
               = true) by (vm_compute; reflexivity).
  assert (H3 : decoder (headersGet "Content-Type" (headers badGateway))
               = Json) by (vm_compute; reflexivity).
  destruct (null_error_body_never_reported sampleFromValues sampleInspect
              sampleSearchParams 10000 (Some "get") None
              "https://rest.ably.io/time" None None None
              badGateway [TimeoutFires] H1 H2 H3)
    as [H _].
  exact H.
Defined.

Lemma credentials_follow_authorization_header_witness :
  ri_credentials
    (init (fetchRequest sampleSearchParams 10000 (Some "post") None
             "https://rest.ably.io/keys/k/requestToken"
             (Some [("Accept", "application/json");
                    ("Authorization", "Basic azpz")])
             None (Some (BText "{}")))) = "include".
Proof.
  destruct (credentials_follow_authorization_header sampleSearchParams 10000
              (Some "post") None "https://rest.ably.io/keys/k/requestToken"
              (Some [("Accept", "application/json");
                     ("Authorization", "Basic azpz")])
              None (Some (BText "{}")))
    as [[_ H] _].
  apply H. exists "Authorization", "Basic azpz".
  split; [| reflexivity].
  apply list_elem_of_further, list_elem_of_here.
Defined.
